(** * cadence-tools test framework: the test runner and the emulator backend

    A shallow embedding of [test/test_runner.go] (the orchestrator:
    [RunTest], [RunTests], the lifecycle hooks and the panic handling) and of
    the emulator backend (transaction sequencing, block commitment, import
    rewriting), followed by the properties the specification states about
    them.

    The Cadence interpreter, the parser, the Flow SDK and the emulator are
    collaborators whose code lives outside the repository: they enter as
    type classes ([CadenceRuntime], [MathRand], [FlowTypes], [FlowSDK],
    [Emulator], [CadenceParser], [AccountCreation], [Printing]), and every
    call the embedded code makes to them is written where the Go code makes
    it.  The last part of the file holds further properties of the same
    code: the load-time checks, the runs of [RunTest], the log collector and
    the printed reports, and the backend's transactions, scripts and
    accounts. *)

From Stdlib Require Import ZArith List String Ascii Bool Lia DecimalString.
From stdpp Require Import base tactics option list gmap strings.

Local Open Scope string_scope.
Local Open Scope list_scope.

(** ** Go values shared by both components *)

(** A non-nil Go [error]: the one dynamic type the code tests for
    ([*emulator.PendingBlockTransactionsExhaustedError], part_000:273), and
    every other error, identified by its message. *)
Inductive GoError : Type :=
| PendingBlockTransactionsExhaustedError
| ErrorMessage (msg : string).

(** The Go interface type [error]: [None] is [nil]. *)
Abbreviation error := (option GoError).

(** The value carried by a running panic: [panic(err)] with an [error], or
    any other value (rendered with the verb [%s] when it is reported). *)
Inductive PanicValue : Type :=
| PanicError (e : GoError)
| PanicOther (v : string).

(** How a Go call ends: it returns, or it leaves by a panic. *)
Inductive Outcome (A : Type) : Type :=
| Normal (a : A)
| Panic (v : PanicValue).
Arguments Normal {A} a.
Arguments Panic {A} v.

Definition isPanic {A} (o : Outcome A) : bool :=
  match o with Panic _ => true | Normal _ => false end.

(** [fmt.Errorf("%s", r)] *)
Definition fmt_Errorf_s (r : string) : GoError := ErrorMessage r.

(** *** [recover] and [recoverPanics]

    The Go specification: "The return value of recover is nil when the
    goroutine is not panicking or recover was not called directly by a
    deferred function."  Whether the built-in has any effect therefore
    depends on how its caller was entered. *)
Inductive CallSite : Type :=
| DeferredCall      (* the caller of recover is the function named in the defer statement *)
| NestedCall.       (* the caller of recover is an ordinary call made by the deferred function *)

(** [recover()]: the value obtained, and the panic still in flight after the
    call. *)
Definition recover (site : CallSite) (panicking : option PanicValue)
  : option PanicValue * option PanicValue :=
  match site with
  | DeferredCall => (panicking, None)
  | NestedCall => (None, panicking)
  end.

(** [recoverPanics(onError)], test_runner.go:383.  [site] tells how
    [recoverPanics] itself was entered; the result is the argument handed to
    [onError] (if it is called) and the panic still in flight. *)
Definition recoverPanics (site : CallSite) (panicking : option PanicValue)
  : option GoError * option PanicValue :=
  let '(r, panicking') := recover site panicking in
  match r with
  | None => (None, panicking')
  | Some (PanicError e) => (Some e, panicking')
  | Some (PanicOther v) => (Some (fmt_Errorf_s v), panicking')
  end.

(** How the body of a function with named results [(result, err)] ends: by a
    [return], or by a panic that finds the named results as they stand. *)
Inductive BodyEnd (A : Type) : Type :=
| Returned (result : A) (err : error)
| Panicking (v : PanicValue) (result : A) (err : error).
Arguments Returned {A} result err.
Arguments Panicking {A} v result err.

(** The deferred closure shared by [RunTest], [RunTests] and
    [invokeTestFunction]:
<<
    defer func() {
        recoverPanics(func(internalErr error) {
            err = internalErr
        })
    }()
>>
    [recoverPanics] is called by the closure, so [recover] runs one call
    below the deferred function. *)
Definition deferredRecoverPanics {A} (body : BodyEnd A) : Outcome (A * error) :=
  let '(panicking, result, err) :=
    match body with
    | Returned result err => (None, result, err)
    | Panicking v result err => (Some v, result, err)
    end in
  let '(internalErr, panicking') := recoverPanics NestedCall panicking in
  let err' := match internalErr with Some e => Some e | None => err end in
  match panicking' with
  | Some v => Panic v
  | None => Normal (result, err')
  end.

(** ** The test script as the runner sees it *)

Record FunctionDeclaration : Type := {
  Identifier : string;
  ParameterList_IsEmpty : bool;
  ReturnTypeAnnotation : option string
}.

Inductive Location : Type :=
| StringLocation (path : string)
| AddressLocation (address : string) (name : string)
| IdentifierLocation (name : string).

(** An import declaration with the byte offsets the parser records. *)
Record ImportDeclaration : Type := {
  ImportLocation : Location;
  LocationPos_Offset : Z;
  EndPos_Offset : Z
}.

Record Program : Type := {
  FunctionDeclarations : list FunctionDeclaration;
  ImportDeclarations : list ImportDeclaration
}.

Definition testFunctionPrefix : string := "test".
Definition setupFunctionName : string := "setup".
Definition tearDownFunctionName : string := "tearDown".
Definition beforeEachFunctionName : string := "beforeEach".
Definition afterEachFunctionName : string := "afterEach".

Record Result : Type := {
  TestName : string;
  Error : error
}.

(** [type Results []Result]; the nil slice and the empty slice are both []. *)
Definition Results : Type := list Result.

Record TestRunner : Type := {
  (* logCollection.Logs *)
  Logs : list string;
  (* randomSeed is used for randomized test case execution. *)
  randomSeed : Z
}.

(** One call of [inter.Invoke], with the way it ended. *)
Definition Invocation : Type := (string * Outcome error)%type.

(** The Cadence runtime as the runner uses it: the interpreter's mutable
    state with [inter.Invoke(name)] on it (the returned value is dropped at
    every call site, only the error is kept; the first argument is the set
    of top-level bindings), [testRuntime.ParseAndCheckProgram], and
    [env.Interpret], which yields the interpreter: its top-level bindings and
    its state. *)
Class CadenceRuntime : Type := {
  Heap : Type;
  interp_Invoke : gset string -> Heap -> string -> Outcome error * Heap;
  ParseAndCheckProgram : string -> Outcome (GoError + Program);
  env_Interpret : Program -> Outcome (GoError + (gset string * Heap))
}.

(** [math/rand]: the source seeded by [rand.NewSource], and one bounded
    draw ([r.int31n(n)], a number below [n]) from it. *)
Class MathRand : Type := {
  RngState : Type;
  rand_NewSource : Z -> RngState;
  rand_int31n : RngState -> nat -> nat * RngState
}.

Section TestRunner.

Context `{CadenceRuntime} `{MathRand}.

(** [*interpreter.Interpreter] together with the record of the
    invocations made on it. *)
Record Interpreter : Type := {
  Globals : gset string;
  heap : Heap;
  trace : list Invocation
}.

Definition Globals_Contains (inter : Interpreter) (name : string) : bool :=
  bool_decide (name ∈ Globals inter).

Definition inter_Invoke (inter : Interpreter) (funcName : string)
  : Outcome error * Interpreter :=
  let '(o, h) := interp_Invoke (Globals inter) (heap inter) funcName in
  (o, {| Globals := Globals inter; heap := h;
         trace := trace inter ++ [(funcName, o)] |}).

(** test_runner.go:363 *)
Definition invokeTestFunction (inter : Interpreter) (funcName : string)
  : Outcome error * Interpreter :=
  let '(o, inter') := inter_Invoke inter funcName in
  let body :=
    match o with
    | Normal err => Returned tt err            (* _, err = inter.Invoke(funcName); return err *)
    | Panic v => Panicking v tt None
    end in
  match deferredRecoverPanics body with
  | Normal (_, err) => (Normal err, inter')
  | Panic v => (Panic v, inter')
  end.

Definition hasSetup (inter : Interpreter) : bool :=
  Globals_Contains inter setupFunctionName.
Definition hasTearDown (inter : Interpreter) : bool :=
  Globals_Contains inter tearDownFunctionName.
Definition hasBeforeEach (inter : Interpreter) : bool :=
  Globals_Contains inter beforeEachFunctionName.
Definition hasAfterEach (inter : Interpreter) : bool :=
  Globals_Contains inter afterEachFunctionName.

Definition runTestSetup (inter : Interpreter) : Outcome error * Interpreter :=
  if negb (hasSetup inter) then (Normal None, inter)
  else invokeTestFunction inter setupFunctionName.

Definition runTestTearDown (inter : Interpreter) : Outcome error * Interpreter :=
  if negb (hasTearDown inter) then (Normal None, inter)
  else invokeTestFunction inter tearDownFunctionName.

Definition runBeforeEach (inter : Interpreter) : Outcome error * Interpreter :=
  if negb (hasBeforeEach inter) then (Normal None, inter)
  else invokeTestFunction inter beforeEachFunctionName.

Definition runAfterEach (inter : Interpreter) : Outcome error * Interpreter :=
  if negb (hasAfterEach inter) then (Normal None, inter)
  else invokeTestFunction inter afterEachFunctionName.

(** The loop of [parseCheckAndInterpret] over the function declarations
    (test_runner.go:435-449): the first test function with parameters or a
    return type ends the call with an error. *)
Fixpoint checkTestFunctions (decls : list FunctionDeclaration) : error :=
  match decls with
  | [] => None
  | funcDecl :: rest =>
      if negb (String.prefix testFunctionPrefix (Identifier funcDecl))
      then checkTestFunctions rest
      else if negb (ParameterList_IsEmpty funcDecl)
      then Some (ErrorMessage "test functions should have no arguments")
      else match ReturnTypeAnnotation funcDecl with
           | Some _ => Some (ErrorMessage "test functions should have no return values")
           | None => checkTestFunctions rest
           end
  end.

(** test_runner.go:395 *)
Definition parseCheckAndInterpret (script : string)
  : Outcome (GoError + (Program * Interpreter)) :=
  match ParseAndCheckProgram script with
  | Panic v => Panic v
  | Normal (inl err) => Normal (inl err)
  | Normal (inr program) =>
      match checkTestFunctions (FunctionDeclarations program) with
      | Some err => Normal (inl err)
      | None =>
          match env_Interpret program with
          | Panic v => Panic v
          | Normal (inl err) => Normal (inl err)
          | Normal (inr (globals, h)) =>
              Normal (inr (program, {| Globals := globals; heap := h; trace := [] |}))
          end
      end
  end.

(** A call made from a body with named results: when it panics, the body
    ends panicking with the named results as they stand. *)
Definition call {A B} (c : Outcome A * Interpreter) (named : B * error)
    (k : A -> Interpreter -> BodyEnd B * Interpreter) : BodyEnd B * Interpreter :=
  match c with
  | (Panic v, inter) => (Panicking v (fst named) (snd named), inter)
  | (Normal a, inter) => k a inter
  end.

(** The statements of [RunTest] after [parseCheckAndInterpret]
    (test_runner.go:220-246). *)
Definition RunTest_steps (inter : Interpreter) (funcName : string)
  : BodyEnd (option Result) * Interpreter :=
  call (runTestSetup inter) (None, None) (fun err inter =>
  match err with
  | Some _ => (Returned None err, inter)
  | None =>
  call (runBeforeEach inter) (None, None) (fun err inter =>
  match err with
  | Some _ => (Returned None err, inter)
  | None =>
  (* _, testResult := inter.Invoke(funcName) *)
  call (inter_Invoke inter funcName) (None, None) (fun testResult inter =>
  call (runAfterEach inter) (None, None) (fun err inter =>
  match err with
  | Some _ => (Returned None err, inter)
  | None =>
  call (runTestTearDown inter) (None, None) (fun err inter =>
  (Returned (Some {| TestName := funcName; Error := testResult |}) err, inter))
  end))
  end)
  end).

(** [RunTest], test_runner.go:208: the result, the error, and the
    invocations made on the interpreter during the call. *)
Definition RunTest (r : TestRunner) (script funcName : string)
  : Outcome (option Result * error) * list Invocation :=
  match parseCheckAndInterpret script with
  | Panic v => (deferredRecoverPanics (Panicking v None None), [])
  | Normal (inl err) => (deferredRecoverPanics (Returned None (Some err)), [])
  | Normal (inr (_, inter)) =>
      let '(body, inter') := RunTest_steps inter funcName in
      (deferredRecoverPanics body, trace inter')
  end.

(** [testCases[i], testCases[j] = testCases[j], testCases[i]]: both
    operands are read, then the two elements are assigned left to right; an
    index outside the slice panics. *)
Definition swapTestCases {A} (testCases : list A) (i j : nat) : Outcome (list A) :=
  match testCases !! j, testCases !! i with
  | Some tj, Some ti => Normal (<[j := ti]> (<[i := tj]> testCases))
  | _, _ => Panic (PanicOther "index out of range")
  end.

(** Modelled from the spec: [rng.Shuffle(n, swap)] of math/rand is not part
    of the repository; the specification calls it "a Fisher–Yates-style
    shuffle (seeded PRNG)": for [i] from [n-1] down to [1], draw [j] below
    [i+1] and call [swap(i, j)]. *)
Fixpoint shuffleDownFrom {A} (i : nat) (rng : RngState) (testCases : list A)
  : Outcome (list A) :=
  match i with
  | O => Normal testCases
  | S i' =>
      let '(j, rng') := rand_int31n rng (S i) in
      match swapTestCases testCases i j with
      | Panic v => Panic v
      | Normal testCases' => shuffleDownFrom i' rng' testCases'
      end
  end.

Definition rand_Shuffle {A} (rng : RngState) (testCases : list A) : Outcome (list A) :=
  shuffleDownFrom (length testCases - 1) rng testCases.

(** test_runner.go:270-284: the discovered cases, in the order in which
    the loop will run them. *)
Definition discoverTestCases (program : Program) : list FunctionDeclaration :=
  List.filter (fun funcDecl => String.prefix testFunctionPrefix (Identifier funcDecl))
              (FunctionDeclarations program).

Definition orderTestCases (r : TestRunner) (testCases : list FunctionDeclaration)
  : Outcome (list FunctionDeclaration) :=
  if (0 <? randomSeed r)%Z
  then rand_Shuffle (rand_NewSource (randomSeed r)) testCases
  else Normal testCases.

(** The [for _, funcDecl := range testCases] loop of [RunTests]
    (test_runner.go:286-307).  [inl]: the function ended inside the loop
    (a [return nil, err], or a panic); [inr]: the loop ran to its end with
    these results. *)
Fixpoint forEachTestCase (testCases : list FunctionDeclaration) (results : Results)
    (inter : Interpreter) : (BodyEnd Results + Results) * Interpreter :=
  match testCases with
  | [] => (inr results, inter)
  | funcDecl :: rest =>
      let funcName := Identifier funcDecl in
      match runBeforeEach inter with
      | (Panic v, inter) => (inl (Panicking v results None), inter)
      | (Normal (Some err), inter) => (inl (Returned [] (Some err)), inter)
      | (Normal None, inter) =>
          match invokeTestFunction inter funcName with
          | (Panic v, inter) => (inl (Panicking v results None), inter)
          | (Normal testErr, inter) =>
              match runAfterEach inter with
              | (Panic v, inter) => (inl (Panicking v results None), inter)
              | (Normal (Some err), inter) => (inl (Returned [] (Some err)), inter)
              | (Normal None, inter) =>
                  forEachTestCase rest
                    (results ++ [{| TestName := funcName; Error := testErr |}]) inter
              end
          end
      end
  end.

(** The statements of [RunTests] after [parseCheckAndInterpret]
    (test_runner.go:262-312). *)
Definition RunTests_steps (r : TestRunner) (program : Program) (inter : Interpreter)
  : BodyEnd Results * Interpreter :=
  call (runTestSetup inter) ([], None) (fun err inter =>
  match err with
  | Some _ => (Returned [] err, inter)
  | None =>
  call (orderTestCases r (discoverTestCases program), inter) ([], None)
    (fun testCases inter =>
  match forEachTestCase testCases [] inter with
  | (inl ended, inter) => (ended, inter)
  | (inr results, inter) =>
      call (runTestTearDown inter) (results, None) (fun err inter =>
      (Returned results err, inter))
  end)
  end).

(** [RunTests], test_runner.go:250: the results, the error, and the
    invocations made on the interpreter during the call. *)
Definition RunTests (r : TestRunner) (script : string)
  : Outcome (Results * error) * list Invocation :=
  match parseCheckAndInterpret script with
  | Panic v => (deferredRecoverPanics (Panicking v [] None), [])
  | Normal (inl err) => (deferredRecoverPanics (Returned [] (Some err)), [])
  | Normal (inr (program, inter)) =>
      let '(body, inter') := RunTests_steps r program inter in
      (deferredRecoverPanics body, trace inter')
  end.

End TestRunner.

(** ** The emulator backend *)

(** Source text is kept as its sequence of bytes: the form in which
    [replaceImports] slices it and in which the ledger receives it
    ([[]byte(code)]). *)
Definition text (s : string) : list ascii := list_ascii_of_string s.

(** [uint64] arithmetic wraps around. *)
Definition uint64 (z : Z) : Z := (z mod 2 ^ 64)%Z.

(** [code[lo:hi]]; a bound outside [0 <= lo <= hi <= len(code)] panics. *)
Definition slice (code : list ascii) (lo hi : Z) : Outcome (list ascii) :=
  if ((0 <=? lo) && (lo <=? hi) && (hi <=? Z.of_nat (length code)))%Z
  then Normal (take (Z.to_nat (hi - lo)) (drop (Z.to_nat lo) code))
  else Panic (PanicError (ErrorMessage "slice bounds out of range")).

Definition hexDigit (n : N) : ascii :=
  nth (N.to_nat n) (text "0123456789abcdef") "0"%char.

(** [hex.EncodeToString] *)
Definition hex_EncodeToString (src : list ascii) : list ascii :=
  flat_map (fun b => [hexDigit (N_of_ascii b / 16); hexDigit (N_of_ascii b mod 16)]) src.

(** The verb [%d] on a slice index. *)
Definition fmt_d (i : nat) : list ascii :=
  text (NilEmpty.string_of_uint (Nat.to_uint i)).

(** [stdlib.TransactionResult] *)
Record TransactionResult : Type := {
  TransactionResult_Error : error
}.

(** The types the backend handles without looking inside: [common.Address]
    with its [String] method, interpreter and Cadence values with the
    conversions between them, signers and account keys. *)
Class FlowTypes : Type := {
  Address : Type;
  Address_eq_dec :: EqDecision Address;
  Address_countable :: Countable Address;
  Address_String : Address -> string;
  Value : Type;
  CadenceValue : Type;
  Signer : Type;
  AccountKey : Type;
  runtime_ExportValue : Value -> GoError + CadenceValue;
  runtime_ImportValue : CadenceValue -> GoError + Value;
  json_Encode : CadenceValue -> GoError + list ascii;
  CadenceValue_TypeID : CadenceValue -> string
}.

Section Transactions.

Context `{FlowTypes}.

(** [stdlib.Configuration] *)
Record Configuration : Type := {
  Addresses : gmap string Address
}.

(** [stdlib.ScriptResult] *)
Record ScriptResult : Type := {
  ScriptResult_Value : option Value;
  ScriptResult_Error : error
}.

(** [stdlib.Account]: the address and the encoded public key. *)
Record Account : Type := {
  Account_Address : Address;
  Account_PublicKey : string
}.

Record keyInfo : Type := {
  accountKey : option AccountKey;
  signer : option Signer
}.

(** The proposal key of an [sdk.Transaction]. *)
Record ProposalKey : Type := {
  ProposalKey_Address : Address;
  ProposalKey_KeyIndex : Z;
  ProposalKey_SequenceNumber : Z
}.

(** [sdk.Transaction]: the fields the builder calls of [newTransaction]
    set.  Arguments and signatures are added by the SDK methods below. *)
Record Transaction : Type := {
  Script : list ascii;
  TxProposalKey : option ProposalKey;
  Payer : option Address;
  Authorizers : list Address;
  Arguments : list (list ascii);
  Signatures : list (Address * list ascii)
}.

Definition sdk_NewTransaction : Transaction :=
  {| Script := []; TxProposalKey := None; Payer := None; Authorizers := [];
     Arguments := []; Signatures := [] |}.

Definition SetScript (script : list ascii) (tx : Transaction) : Transaction :=
  {| Script := script; TxProposalKey := TxProposalKey tx; Payer := Payer tx;
     Authorizers := Authorizers tx; Arguments := Arguments tx;
     Signatures := Signatures tx |}.

Definition SetProposalKey (address : Address) (keyIndex sequenceNum : Z)
    (tx : Transaction) : Transaction :=
  {| Script := Script tx;
     TxProposalKey := Some {| ProposalKey_Address := address;
                              ProposalKey_KeyIndex := keyIndex;
                              ProposalKey_SequenceNumber := sequenceNum |};
     Payer := Payer tx; Authorizers := Authorizers tx;
     Arguments := Arguments tx; Signatures := Signatures tx |}.

Definition SetPayer (address : Address) (tx : Transaction) : Transaction :=
  {| Script := Script tx; TxProposalKey := TxProposalKey tx;
     Payer := Some address; Authorizers := Authorizers tx;
     Arguments := Arguments tx; Signatures := Signatures tx |}.

Definition AddAuthorizer (address : Address) (tx : Transaction) : Transaction :=
  {| Script := Script tx; TxProposalKey := TxProposalKey tx; Payer := Payer tx;
     Authorizers := Authorizers tx ++ [address];
     Arguments := Arguments tx; Signatures := Signatures tx |}.

(** The sequence number a transaction proposes, [None] before
    [SetProposalKey]. *)
Definition SequenceNumber (tx : Transaction) : option Z :=
  ProposalKey_SequenceNumber <$> TxProposalKey tx.

(** [blockchain.ServiceKey()] *)
Record ServiceKey : Type := {
  ServiceKey_Address : Address;
  ServiceKey_Index : Z;
  ServiceKey_SequenceNumber : Z
}.

End Transactions.

(** The SDK methods that can fail: [tx.AddArgument], [tx.SignPayload],
    [tx.SignEnvelope] (the signer of [SignPayload] is nil when the backend
    holds no key for the account) and [serviceKey.Signer()]. *)
Class FlowSDK `{FlowTypes} : Type := {
  tx_AddArgument : Transaction -> CadenceValue -> GoError + Transaction;
  tx_SignPayload : Transaction -> Address -> Z -> option Signer -> GoError + Transaction;
  tx_SignEnvelope : Transaction -> Address -> Z -> Signer -> GoError + Transaction;
  serviceKey_Signer : ServiceKey -> GoError + Signer
}.

(** The emulator: its state and the calls the backend makes on it.  A call
    returning [(result, err)] yields [inl err] when [err] is not nil. *)
Class Emulator `{FlowTypes} : Type := {
  Ledger : Type;
  emulator_NewBlockchain : Ledger;
  emulator_ServiceKey : Ledger -> ServiceKey;
  emulator_AddTransaction : Ledger -> Transaction -> error * Ledger;
  emulator_ExecuteNextTransaction : Ledger -> (GoError + error) * Ledger;
  emulator_CommitBlock : Ledger -> error * Ledger;
  emulator_ExecuteScript :
    Ledger -> list ascii -> list (list ascii) -> (GoError + (error * CadenceValue)) * Ledger
}.

(** [parser.ParseProgram(nil, []byte(code), parser.Config{})] *)
Class CadenceParser : Type := {
  parser_ParseProgram : list ascii -> GoError + Program
}.

Section EmulatorBackend.

Context `{FlowSDK} `{!Emulator} `{CadenceParser}.

(** [*emulator.Blockchain] together with the record of the transactions
    handed to its [AddTransaction]. *)
Record Blockchain : Type := {
  ledger : Ledger;
  submitted : list Transaction
}.

Definition blockchain_ServiceKey (b : Blockchain) : ServiceKey :=
  emulator_ServiceKey (ledger b).

Definition blockchain_AddTransaction (b : Blockchain) (tx : Transaction)
  : error * Blockchain :=
  let '(err, l) := emulator_AddTransaction (ledger b) tx in
  (err, {| ledger := l; submitted := submitted b ++ [tx] |}).

Definition blockchain_ExecuteNextTransaction (b : Blockchain)
  : (GoError + error) * Blockchain :=
  let '(ret, l) := emulator_ExecuteNextTransaction (ledger b) in
  (ret, {| ledger := l; submitted := submitted b |}).

Definition blockchain_CommitBlock (b : Blockchain) : error * Blockchain :=
  let '(err, l) := emulator_CommitBlock (ledger b) in
  (err, {| ledger := l; submitted := submitted b |}).

Definition blockchain_ExecuteScript (b : Blockchain) (script : list ascii)
    (arguments : list (list ascii)) : (GoError + (error * CadenceValue)) * Blockchain :=
  let '(ret, l) := emulator_ExecuteScript (ledger b) script arguments in
  (ret, {| ledger := l; submitted := submitted b |}).

(** [EmulatorBackend], part_000:46 *)
Record EmulatorBackend : Type := {
  blockchain : Blockchain;
  (* blockOffset is the offset for the sequence number of the next transaction. *)
  blockOffset : Z;
  accountKeys : gmap Address (gmap string keyInfo);
  configuration : option Configuration
}.

Definition set_blockchain (b : Blockchain) (e : EmulatorBackend) : EmulatorBackend :=
  {| blockchain := b; blockOffset := blockOffset e;
     accountKeys := accountKeys e; configuration := configuration e |}.

Definition set_blockOffset (z : Z) (e : EmulatorBackend) : EmulatorBackend :=
  {| blockchain := blockchain e; blockOffset := z;
     accountKeys := accountKeys e; configuration := configuration e |}.

(** part_000:76 *)
Definition NewEmulatorBackend : EmulatorBackend :=
  {| blockchain := {| ledger := emulator_NewBlockchain; submitted := [] |};
     blockOffset := 0;
     accountKeys := ∅;
     configuration := None |}.

(** part_000:401 *)
Definition UseConfiguration (e : EmulatorBackend) (c : option Configuration)
  : EmulatorBackend :=
  {| blockchain := blockchain e; blockOffset := blockOffset e;
     accountKeys := accountKeys e; configuration := c |}.

(** The body of the loop of [replaceImports] over the import declarations
    (part_000:418-443), threading the builder [sb] and [importDeclEnd]. *)
Fixpoint replaceImportDeclarations (addresses : gmap string Address)
    (code : list ascii) (declarations : list ImportDeclaration)
    (sb : list ascii) (importDeclEnd : Z) : Outcome (list ascii * Z) :=
  match declarations with
  | [] => Normal (sb, importDeclEnd)
  | importDeclaration :: rest =>
      let prevImportDeclEnd := importDeclEnd in
      let importDeclEnd := (EndPos_Offset importDeclaration + 1)%Z in
      let keepAsIs :=
        match slice code prevImportDeclEnd importDeclEnd with
        | Panic v => Panic v
        | Normal s => replaceImportDeclarations addresses code rest (sb ++ s) importDeclEnd
        end in
      match ImportLocation importDeclaration with
      | StringLocation location =>
          match addresses !! location with
          | None => keepAsIs
          | Some address =>
              let addressStr := text "0x" ++ text (Address_String address) in
              let locationStart := LocationPos_Offset importDeclaration in
              match slice code prevImportDeclEnd locationStart with
              | Panic v => Panic v
              | Normal s =>
                  replaceImportDeclarations addresses code rest
                    ((sb ++ s) ++ addressStr) importDeclEnd
              end
          end
      | _ => keepAsIs
      end
  end.

(** part_000:405 *)
Definition replaceImports (e : EmulatorBackend) (code : list ascii)
  : Outcome (list ascii) :=
  match configuration e with
  | None => Normal code
  | Some config =>
      match parser_ParseProgram code with
      | inl err => Panic (PanicError err)
      | inr program =>
          match replaceImportDeclarations (Addresses config) code
                  (ImportDeclarations program) [] 0 with
          | Panic v => Panic v
          | Normal (sb, importDeclEnd) =>
              match slice code importDeclEnd (Z.of_nat (length code)) with
              | Panic v => Panic v
              | Normal s => Normal (sb ++ s)
              end
          end
      end
  end.

(** part_000:214 *)
Definition newTransaction (e : EmulatorBackend) (code : list ascii)
    (authorizers : list Address) : Transaction :=
  let serviceKey := blockchain_ServiceKey (blockchain e) in
  let sequenceNumber := uint64 (ServiceKey_SequenceNumber serviceKey + blockOffset e) in
  let tx :=
    SetPayer (ServiceKey_Address serviceKey)
      (SetProposalKey (ServiceKey_Address serviceKey) (ServiceKey_Index serviceKey)
         sequenceNumber
         (SetScript code sdk_NewTransaction)) in
  fold_left (fun tx authorizer => AddAuthorizer authorizer tx) authorizers tx.

(** The loop of [signTransaction] (part_000:239-250), over the signers from
    the last to the first. *)
Fixpoint signPayloads (e : EmulatorBackend) (tx : Transaction)
    (signersLastFirst : list Account) : GoError + Transaction :=
  match signersLastFirst with
  | [] => inr tx
  | signerAccount :: rest =>
      let publicKey := Account_PublicKey signerAccount in
      let accountKeys := default ∅ (accountKeys e !! Account_Address signerAccount) in
      let keyInfo := default {| accountKey := None; signer := None |}
                             (accountKeys !! publicKey) in
      match tx_SignPayload tx (Account_Address signerAccount) 0 (signer keyInfo) with
      | inl err => inl err
      | inr tx => signPayloads e tx rest
      end
  end.

(** part_000:231 *)
Definition signTransaction (e : EmulatorBackend) (tx : Transaction)
    (signerAccounts : list Account) : GoError + Transaction :=
  match signPayloads e tx (rev signerAccounts) with
  | inl err => inl err
  | inr tx =>
      let serviceKey := blockchain_ServiceKey (blockchain e) in
      match serviceKey_Signer serviceKey with
      | inl err => inl err
      | inr serviceSigner =>
          tx_SignEnvelope tx (ServiceKey_Address serviceKey) 0 serviceSigner
      end
  end.

(** The argument loop of [AddTransaction] (part_000:186-196). *)
Fixpoint addExportedArguments (tx : Transaction) (args : list Value)
  : GoError + Transaction :=
  match args with
  | [] => inr tx
  | arg :: rest =>
      match runtime_ExportValue arg with
      | inl err => inl err
      | inr exportedValue =>
          match tx_AddArgument tx exportedValue with
          | inl err => inl err
          | inr tx => addExportedArguments tx rest
          end
      end
  end.

(** part_000:174 *)
Definition AddTransaction (e : EmulatorBackend) (code : list ascii)
    (authorizers : list Address) (signers : list Account) (args : list Value)
  : Outcome error * EmulatorBackend :=
  match replaceImports e code with
  | Panic v => (Panic v, e)
  | Normal code =>
      let tx := newTransaction e code authorizers in
      match addExportedArguments tx args with
      | inl err => (Normal (Some err), e)
      | inr tx =>
          match signTransaction e tx signers with
          | inl err => (Normal (Some err), e)
          | inr tx =>
              let '(err, b) := blockchain_AddTransaction (blockchain e) tx in
              let e := set_blockchain b e in
              match err with
              | Some _ => (Normal err, e)
              | None =>
                  (* Increment the transaction sequence number offset for the current block. *)
                  (Normal None, set_blockOffset (uint64 (blockOffset e + 1)) e)
              end
          end
      end
  end.

(** part_000:266 *)
Definition ExecuteNextTransaction (e : EmulatorBackend)
  : option TransactionResult * EmulatorBackend :=
  let '(ret, b) := blockchain_ExecuteNextTransaction (blockchain e) in
  let e := set_blockchain b e in
  match ret with
  | inl err =>
      match err with
      | PendingBlockTransactionsExhaustedError => (None, e)
      | _ => (Some {| TransactionResult_Error := Some err |}, e)
      end
  | inr (Some resultError) =>
      (Some {| TransactionResult_Error := Some resultError |}, e)
  | inr None => (Some {| TransactionResult_Error := None |}, e)
  end.

(** part_000:291 *)
Definition CommitBlock (e : EmulatorBackend) : error * EmulatorBackend :=
  (* Reset the transaction offset for the current block. *)
  let e := set_blockOffset 0 e in
  let '(err, b) := blockchain_CommitBlock (blockchain e) in
  (err, set_blockchain b e).

Definition nl : list ascii := ["010"%char].
Definition tab : list ascii := ["009"%char].
Definition dquote : list ascii := ["034"%char].

(** [fmt.Sprintf(deployContractTransactionTemplate, txArgs, name, hexEncodedCode, addArgs)] *)
Definition deployContractTransaction (txArgs : list ascii) (name : string)
    (hexEncodedCode addArgs : list ascii) : list ascii :=
  nl ++ tab ++ text "    transaction(" ++ txArgs ++ text ") {" ++
  nl ++ tab ++ tab ++ text "    prepare(signer: AuthAccount) {" ++
  nl ++ tab ++ tab ++ tab ++ text "    signer.contracts.add(name: " ++
    dquote ++ text name ++ dquote ++ text ", code: " ++
    dquote ++ hexEncodedCode ++ dquote ++ text ".decodeHex()" ++ addArgs ++ text ")" ++
  nl ++ tab ++ tab ++ text "    }" ++
  nl ++ tab ++ text "    }".

(** The first loop of [DeployContract] (part_000:322-336): the exported
    arguments and the two argument lists of the transaction text. *)
Fixpoint exportDeployArguments (i : nat) (args : list Value)
    (cadenceArgs : list CadenceValue) (txArgsBuilder addArgsBuilder : list ascii)
  : GoError + (list CadenceValue * list ascii * list ascii) :=
  match args with
  | [] => inr (cadenceArgs, txArgsBuilder, addArgsBuilder)
  | arg :: rest =>
      match runtime_ExportValue arg with
      | inl err => inl err
      | inr cadenceArg =>
          let txArgsBuilder :=
            if (0 <? i)%nat then txArgsBuilder ++ text ", " else txArgsBuilder in
          let txArgsBuilder :=
            txArgsBuilder ++ text "arg" ++ fmt_d i ++ text ": " ++
            text (CadenceValue_TypeID cadenceArg) in
          let addArgsBuilder := addArgsBuilder ++ text ", arg" ++ fmt_d i in
          exportDeployArguments (S i) rest (cadenceArgs ++ [cadenceArg])
            txArgsBuilder addArgsBuilder
      end
  end.

(** The second loop of [DeployContract] (part_000:348-353). *)
Fixpoint addArguments (tx : Transaction) (cadenceArgs : list CadenceValue)
  : GoError + Transaction :=
  match cadenceArgs with
  | [] => inr tx
  | arg :: rest =>
      match tx_AddArgument tx arg with
      | inl err => inl err
      | inr tx => addArguments tx rest
      end
  end.

(** part_000:299 *)
Definition DeployContract (e : EmulatorBackend) (name : string) (code : list ascii)
    (account : Account) (args : list Value) : Outcome error * EmulatorBackend :=
  match replaceImports e code with
  | Panic v => (Panic v, e)
  | Normal code =>
      let hexEncodedCode := hex_EncodeToString code in
      match exportDeployArguments 0 args [] [] [] with
      | inl err => (Normal (Some err), e)
      | inr (cadenceArgs, txArgs, addArgs) =>
          let script := deployContractTransaction txArgs name hexEncodedCode addArgs in
          let tx := newTransaction e script [Account_Address account] in
          match addArguments tx cadenceArgs with
          | inl err => (Normal (Some err), e)
          | inr tx =>
              match signTransaction e tx [account] with
              | inl err => (Normal (Some err), e)
              | inr tx =>
                  let '(err, b) := blockchain_AddTransaction (blockchain e) tx in
                  let e := set_blockchain b e in
                  match err with
                  | Some _ => (Normal err, e)
                  | None =>
                      (* Increment the transaction sequence number offset for the current block. *)
                      let e := set_blockOffset (uint64 (blockOffset e + 1)) e in
                      match ExecuteNextTransaction e with
                      | (None, e) =>
                          (* result.Error on a nil result *)
                          (Panic (PanicError (ErrorMessage "nil pointer dereference")), e)
                      | (Some result, e) =>
                          match TransactionResult_Error result with
                          | Some err => (Normal (Some err), e)
                          | None =>
                              let '(err, e) := CommitBlock e in (Normal err, e)
                          end
                      end
                  end
              end
          end
      end
  end.

(** The argument loop of [RunScript] (part_000:95-112). *)
Fixpoint encodeArguments (args : list Value) (arguments : list (list ascii))
  : GoError + list (list ascii) :=
  match args with
  | [] => inr arguments
  | arg :: rest =>
      match runtime_ExportValue arg with
      | inl err => inl err
      | inr exportedValue =>
          match json_Encode exportedValue with
          | inl err => inl err
          | inr encodedArg => encodeArguments rest (arguments ++ [encodedArg])
          end
      end
  end.

(** part_000:89 *)
Definition RunScript (e : EmulatorBackend) (code : list ascii) (args : list Value)
  : Outcome ScriptResult * EmulatorBackend :=
  let failed err := {| ScriptResult_Value := None; ScriptResult_Error := Some err |} in
  match encodeArguments args [] with
  | inl err => (Normal (failed err), e)
  | inr arguments =>
      match replaceImports e code with
      | Panic v => (Panic v, e)
      | Normal code =>
          let '(ret, b) := blockchain_ExecuteScript (blockchain e) code arguments in
          let e := set_blockchain b e in
          match ret with
          | inl err => (Normal (failed err), e)
          | inr (Some resultError, _) => (Normal (failed resultError), e)
          | inr (None, resultValue) =>
              match runtime_ImportValue resultValue with
              | inl err => (Normal (failed err), e)
              | inr value =>
                  (Normal {| ScriptResult_Value := Some value;
                             ScriptResult_Error := None |}, e)
              end
          end
      end
  end.

End EmulatorBackend.

(** ** Observations on a run of the test runner *)

(** How many times [name] was invoked. *)
Definition countInvocations (name : string) (tr : list Invocation) : nat :=
  length (List.filter (fun inv => String.eqb (fst inv) name) tr).

Definition isEachHook (name : string) : bool :=
  String.eqb name beforeEachFunctionName || String.eqb name afterEachFunctionName.

Definition succeeded (o : Outcome error) : bool :=
  match o with Normal None => true | _ => false end.

(** Every [beforeEach] and [afterEach] invocation returned nil. *)
Definition eachHooksPass (tr : list Invocation) : bool :=
  forallb (fun inv => if isEachHook (fst inv) then succeeded (snd inv) else true) tr.

(** Every [setup] invocation returned nil. *)
Definition setupPasses (tr : list Invocation) : bool :=
  forallb (fun inv => if String.eqb (fst inv) setupFunctionName
                      then succeeded (snd inv) else true) tr.

(** No invocation left by a panic. *)
Definition noPanics (tr : list Invocation) : bool :=
  forallb (fun inv => negb (isPanic (snd inv))) tr.

(** The test cases invoked, in the order of their invocation. *)
Definition executedCases (tr : list Invocation) : list string :=
  List.filter (String.prefix testFunctionPrefix) (map fst tr).

(** The trace a hook leaves: one entry when the hook is defined. *)
Definition hookTrace (present : bool) (name : string) (o : Outcome error)
  : list Invocation :=
  if present then [(name, o)] else [].

(** The contract of a bounded draw: [int31n(n)] lies below [n]. *)
Definition drawsBelowBound `{MathRand} : Prop :=
  forall (rng : RngState) (n : nat), (fst (rand_int31n rng (S n)) <= n)%nat.


(** ** Import rewriting as the specification words it *)

Section ImportRewriting.

Context `{FlowTypes}.

(** "the corresponding hex address literal" *)
Definition addressLiteral (address : Address) : list ascii :=
  text "0x" ++ text (Address_String address).

(** The literal that replaces the target of an import: only for "a plain
    string path present in the configured address table". *)
Definition importTarget (addresses : gmap string Address) (d : ImportDeclaration)
  : option (list ascii) :=
  match ImportLocation d with
  | StringLocation location => addressLiteral <$> addresses !! location
  | _ => None
  end.

(** [code] with the bytes from [lo] up to (not including) [hi] replaced. *)
Definition splice (code : list ascii) (lo hi : Z) (new : list ascii) : list ascii :=
  take (Z.to_nat lo) code ++ new ++ drop (Z.to_nat hi) code.

(** Every mapped import has its target (from the location's first byte to
    the declaration's last) replaced by the literal; nothing else changes.
    The last declaration is rewritten first, so that the offsets of the
    earlier ones still address the text. *)
Fixpoint rewriteImportTargets (addresses : gmap string Address)
    (code : list ascii) (declarations : list ImportDeclaration) : list ascii :=
  match declarations with
  | [] => code
  | d :: rest =>
      let code' := rewriteImportTargets addresses code rest in
      match importTarget addresses d with
      | Some literal => splice code' (LocationPos_Offset d) (EndPos_Offset d + 1) literal
      | None => code'
      end
  end.

(** The parser's positions: the declarations follow one another in the
    text, each location inside its declaration, all inside the text. *)
Fixpoint importsInSourceOrder (code : list ascii) (from : Z)
    (declarations : list ImportDeclaration) : bool :=
  match declarations with
  | [] => ((0 <=? from) && (from <=? Z.of_nat (length code)))%Z
  | d :: rest =>
      ((0 <=? from) && (from <=? LocationPos_Offset d)
       && (LocationPos_Offset d <=? EndPos_Offset d + 1))%Z
      && importsInSourceOrder code (EndPos_Offset d + 1) rest
  end.

End ImportRewriting.

(** The SDK's argument and signing methods leave the proposal key of the
    transaction as [SetProposalKey] set it. *)
Definition sdkKeepsProposalKey `{FlowSDK} : Prop :=
  (forall tx v tx', tx_AddArgument tx v = inr tx' -> TxProposalKey tx' = TxProposalKey tx)
  /\ (forall tx a i s tx', tx_SignPayload tx a i s = inr tx' -> TxProposalKey tx' = TxProposalKey tx)
  /\ (forall tx a i s tx', tx_SignEnvelope tx a i s = inr tx' -> TxProposalKey tx' = TxProposalKey tx).

(** The sequence number the next transaction is to propose: the service
    key's sequence number plus the pending offset, in [uint64]. *)
Definition nextSequenceNumber `{FlowTypes} `{!Emulator} (e : EmulatorBackend) : Z :=
  uint64 (ServiceKey_SequenceNumber (blockchain_ServiceKey (blockchain e)) + blockOffset e).

(** ** Concrete collaborators, used to run the embedding on examples *)

(** An interpreter that follows a script: the outcome of an invocation is a
    function of the name and of the number of invocations made before. *)
Definition scriptedRuntime (decls : list FunctionDeclaration) (globals : list string)
    (behaviour : string -> nat -> Outcome error) : CadenceRuntime :=
  {| Heap := nat;
     interp_Invoke := fun _ h name => (behaviour name h, S h);
     ParseAndCheckProgram := fun _ =>
       Normal (inr {| FunctionDeclarations := decls; ImportDeclarations := [] |});
     env_Interpret := fun _ => Normal (inr (list_to_set globals, O)) |}.

(** A generator whose state is a counter. *)
Definition counterRand : MathRand :=
  {| RngState := nat;
     rand_NewSource := Z.to_nat;
     rand_int31n := fun st n => (st mod n, S st) |}.

Definition testFunction (name : string) : FunctionDeclaration :=
  {| Identifier := name; ParameterList_IsEmpty := true; ReturnTypeAnnotation := None |}.

Definition suiteDeclarations : list FunctionDeclaration :=
  [testFunction "testA"; testFunction "helper"; testFunction "testB";
   testFunction "testC"].

(** A suite whose second [beforeEach] invocation returns an error. *)
Definition suiteBeforeEachFails : CadenceRuntime :=
  scriptedRuntime suiteDeclarations
    ["beforeEach"; "tearDown"; "testA"; "helper"; "testB"; "testC"]
    (fun name h =>
       if String.eqb name "beforeEach" && Nat.eqb h 2
       then Normal (Some (ErrorMessage "beforeEach failed"))
       else Normal None).


(** A suite with every hook, in which one case fails an assertion. *)
Definition suiteOneCaseFails : CadenceRuntime :=
  scriptedRuntime suiteDeclarations
    ["setup"; "beforeEach"; "afterEach"; "tearDown"; "testA"; "helper"; "testB"; "testC"]
    (fun name _ =>
       if String.eqb name "testB" then Normal (Some (ErrorMessage "assertion failed"))
       else Normal None).

Definition unseededRunner : TestRunner := {| Logs := []; randomSeed := 0 |}.
Definition seededRunner : TestRunner := {| Logs := []; randomSeed := 5 |}.
Definition seededRunnerWithLogs : TestRunner :=
  {| Logs := ["setup successful"]; randomSeed := 5 |}.

(** Addresses identified by their hexadecimal rendering; values are numbers,
    of which zero cannot be exported. *)
Definition plainTypes : FlowTypes :=
  {| Address := string;
     Address_String := fun a => a;
     Value := nat;
     CadenceValue := nat;
     Signer := unit;
     AccountKey := unit;
     runtime_ExportValue := fun v =>
       match v with
       | O => inl (ErrorMessage "cannot export value")
       | S _ => inr v
       end;
     runtime_ImportValue := fun v => inr v;
     json_Encode := fun v => inr (fmt_d v);
     CadenceValue_TypeID := fun _ => "Int" |}.

Definition plainSDK : @FlowSDK plainTypes :=
  {| tx_AddArgument := fun (tx : @Transaction plainTypes) (v : nat) =>
       inr {| Script := Script tx; TxProposalKey := TxProposalKey tx;
              Payer := Payer tx; Authorizers := Authorizers tx;
              Arguments := Arguments tx ++ [fmt_d v];
              Signatures := Signatures tx |};
     tx_SignPayload := fun (tx : @Transaction plainTypes) (a : string) _ (s : option unit) =>
       match s with
       | None => inl (ErrorMessage "no signer")
       | Some _ =>
           inr {| Script := Script tx; TxProposalKey := TxProposalKey tx;
                  Payer := Payer tx; Authorizers := Authorizers tx;
                  Arguments := Arguments tx;
                  Signatures := Signatures tx ++ [(a, text "payload")] |}
       end;
     tx_SignEnvelope := fun (tx : @Transaction plainTypes) (a : string) _ _ =>
       inr {| Script := Script tx; TxProposalKey := TxProposalKey tx;
              Payer := Payer tx; Authorizers := Authorizers tx;
              Arguments := Arguments tx;
              Signatures := Signatures tx ++ [(a, text "envelope")] |};
     serviceKey_Signer := fun _ => inr tt |}.

(** A ledger that keeps the service account's sequence number and the
    number of pending transactions. *)
Definition countingEmulator : @Emulator plainTypes :=
  {| Ledger := (Z * nat)%type;
     emulator_NewBlockchain := (0%Z, O);
     emulator_ServiceKey := fun l =>
       {| ServiceKey_Address := "f8d6e0586b0a20c7" : @Address plainTypes;
          ServiceKey_Index := 0;
          ServiceKey_SequenceNumber := fst l |};
     emulator_AddTransaction := fun l _ => (None, (fst l, S (snd l)));
     emulator_ExecuteNextTransaction := fun l =>
       match snd l with
       | O => (inl PendingBlockTransactionsExhaustedError, l)
       | S n => (inr None, ((fst l + 1)%Z, n))
       end;
     emulator_CommitBlock := fun l => (None, l);
     emulator_ExecuteScript := fun l _ _ => (inr (None, 1%nat), l) |}.

(** A parser that knows the listed sources and rejects every other text. *)
Fixpoint lookupSource (table : list (list ascii * Program)) (code : list ascii)
  : GoError + Program :=
  match table with
  | [] => inl (ErrorMessage "unexpected token")
  | (known, program) :: rest =>
      if decide (known = code) then inr program else lookupSource rest code
  end.

Definition tableParser (table : list (list ascii * Program)) : CadenceParser :=
  {| parser_ParseProgram := lookupSource table |}.

(** [import Foo from "./foo.cdc"], followed by a script. *)
Definition fooScript : list ascii :=
  text "import Foo from " ++ dquote ++ text "./foo.cdc" ++ dquote ++ nl ++
  text "pub fun main() {}".

Definition fooProgram : Program :=
  {| FunctionDeclarations := [];
     ImportDeclarations :=
       [{| ImportLocation := StringLocation "./foo.cdc";
           LocationPos_Offset := 16;
           EndPos_Offset := 26 |}] |}.

Definition fooParser : CadenceParser := tableParser [(fooScript, fooProgram)].

Definition fooConfiguration : @Configuration plainTypes :=
  {| Addresses := {[ "./foo.cdc" := "00000000000000ab" ]} |}.

Definition freshBackend : @EmulatorBackend plainTypes countingEmulator :=
  @NewEmulatorBackend plainTypes countingEmulator.

Definition configuredBackend : @EmulatorBackend plainTypes countingEmulator :=
  UseConfiguration freshBackend (Some fooConfiguration).

(** A backend with three transactions pending, on a ledger whose service
    key stands at sequence number 41. *)
Definition busyBackend : @EmulatorBackend plainTypes countingEmulator :=
  {| blockchain := @Build_Blockchain plainTypes countingEmulator (41%Z, 3%nat) [];
     blockOffset := 3;
     accountKeys := ∅;
     configuration := None |}.

(** ** Further observations on runs *)

(** One of the four lifecycle hooks. *)
Definition isLifecycleHook (name : string) : bool :=
  String.eqb name setupFunctionName || String.eqb name tearDownFunctionName
  || String.eqb name beforeEachFunctionName || String.eqb name afterEachFunctionName.

(** The invocations of test cases in a trace. *)
Definition caseInvocations (tr : list Invocation) : list Invocation :=
  List.filter (fun inv => String.prefix testFunctionPrefix (fst inv)) tr.

(** A Result as the invocation it records. *)
Definition resultInvocation (result : Result) : Invocation :=
  (TestName result, Normal (Error result)).

(** A test function as the checks of [parseCheckAndInterpret] want it. *)
Definition wellFormedTestFunction (funcDecl : FunctionDeclaration) : Prop :=
  String.prefix testFunctionPrefix (Identifier funcDecl) = true ->
  ParameterList_IsEmpty funcDecl = true /\ ReturnTypeAnnotation funcDecl = None.

(** What [RunTests] may invoke: a lifecycle hook that the script defines, or
    a discovered test case. *)
Definition invokedByDesign `{CadenceRuntime} (inter : Interpreter) (program : Program)
    (inv : Invocation) : Prop :=
  (isLifecycleHook (fst inv) = true /\ Globals_Contains inter (fst inv) = true)
  \/ In (fst inv) (map Identifier (discoverTestCases program)).

(** ** Reporting: the log collector and the printed results *)

(** [strings.HasPrefix] on bytes. *)
Fixpoint hasPrefix (prefix s : list ascii) : bool :=
  match prefix, s with
  | [], _ => true
  | _ :: _, [] => false
  | p :: prefix', c :: s' => Ascii.eqb p c && hasPrefix prefix' s'
  end.

(** [strings.Replace(s, old, new, n)] for a non-empty [old], read from left
    to right: [limit] is the number of replacements still allowed ([None]
    when [n < 0]: no limit), [skip] the number of bytes of the instance of
    [old] just replaced that are still to be passed over. *)
Fixpoint strings_Replace_from (old new : list ascii) (limit : option nat) (skip : nat)
    (s : list ascii) : list ascii :=
  match s with
  | [] => []
  | c :: rest =>
      match skip with
      | S skip' => strings_Replace_from old new limit skip' rest
      | O =>
          match limit with
          | Some O => c :: strings_Replace_from old new limit O rest
          | _ =>
              if hasPrefix old s
              then new ++ strings_Replace_from old new (Nat.pred <$> limit)
                            (length old - 1) rest
              else c :: strings_Replace_from old new limit O rest
          end
      end
  end.

Definition strings_Replace (s old new : list ascii) (n : nat) : list ascii :=
  strings_Replace_from old new (Some n) 0 s.

Definition strings_ReplaceAll (s old new : list ascii) : list ascii :=
  strings_Replace_from old new None 0 s.

Definition doubleQuote : ascii := "034"%char.
Definition newline : ascii := "010"%char.

(** [quotedLog.FindStringSubmatch(s)[1]] for [quotedLog], the pattern made
    of a double quote, a group holding any number of any characters, and a
    double quote: the leftmost match, "any character" leaving out the
    newline, the repetition taking as much as it can.  [candidate] is the
    match being tried: the bytes read since its opening quote, and the group
    up to the last quote met since.  [None]: no match. *)
Fixpoint quotedLog_scan (candidate : option (list ascii * option (list ascii)))
    (s : list ascii) : option (list ascii) :=
  match s with
  | [] =>
      match candidate with
      | Some (_, Some group) => Some group
      | _ => None
      end
  | c :: rest =>
      match candidate with
      | None =>
          if Ascii.eqb c doubleQuote then quotedLog_scan (Some ([], None)) rest
          else quotedLog_scan None rest
      | Some (read, closed) =>
          if Ascii.eqb c newline then
            match closed with
            | Some group => Some group
            | None => quotedLog_scan None rest
            end
          else if Ascii.eqb c doubleQuote
               then quotedLog_scan (Some (read ++ [c], Some read)) rest
               else quotedLog_scan (Some (read ++ [c], closed)) rest
      end
  end.

Definition quotedLog_FindStringSubmatch (s : list ascii) : option (list ascii) :=
  quotedLog_scan None s.

(** [zerolog.Level] *)
Inductive Level : Type :=
| DebugLevel | InfoLevel | WarnLevel | ErrorLevel | FatalLevel | PanicLevel
| NoLevel | Disabled | TraceLevel.

(** [logCollectionHook.Run], test_runner.go:93, on [h.Logs]. *)
Definition logCollectionHook_Run (Logs : list string) (level : Level) (msg : string)
  : list string :=
  match level with
  | NoLevel => Logs
  | _ =>
      let logMsg := strings_Replace (text msg) (text "LOG:") (text "") 1 in
      let logMsg :=
        match quotedLog_FindStringSubmatch logMsg with
        | Some group => group
        | None => logMsg
        end in
      Logs ++ [string_of_list_ascii logMsg]
  end.

(** The hook over the events of a run, in the order in which they come. *)
Definition collectLogs (Logs : list string) (events : list (Level * string))
  : list string :=
  fold_left (fun Logs event => logCollectionHook_Run Logs (fst event) (snd event))
            events Logs.

(** What the printed report needs of the outside: the message of the
    emulator's exhausted-block error, and the verb [%q]. *)
Class Printing : Type := {
  PendingBlockTransactionsExhausted_Error : string;
  fmt_q : string -> list ascii
}.

(** [err.Error()] *)
Definition GoError_Error `{Printing} (err : GoError) : list ascii :=
  match err with
  | ErrorMessage msg => text msg
  | PendingBlockTransactionsExhaustedError => text PendingBlockTransactionsExhausted_Error
  end.

(** test_runner.go:773 *)
Definition PrettyPrintResult `{Printing} (funcName : string) (err : error) : list ascii :=
  match err with
  | None => text "- PASS: " ++ text funcName
  | Some err =>
      (* Indent the error messages *)
      let errString :=
        strings_ReplaceAll (GoError_Error err) nl (nl ++ tab ++ tab ++ tab) in
      text "- FAIL: " ++ text funcName ++ nl ++ tab ++ tab ++ errString
  end.

(** test_runner.go:763 *)
Definition PrettyPrintResults `{Printing} (results : Results) (scriptPath : string)
  : list ascii :=
  fold_left
    (fun sb result =>
       (sb ++ PrettyPrintResult (TestName result) (Error result)) ++ nl)
    results
    (text "Test results: " ++ fmt_q scriptPath ++ nl).

(** ** Account creation *)

(** What [CreateAccount] asks of the outside: the emulator's account
    creation, and [accountKey.PublicKey.Encode()]. *)
Class AccountCreation `{FlowTypes} `{!Emulator} : Type := {
  emulator_CreateAccount : Ledger -> list AccountKey -> (GoError + Address) * Ledger;
  PublicKey_Encode : AccountKey -> string
}.

Section CreateAccount.

Context `{FlowTypes} `{!Emulator} `{!AccountCreation}.

(** part_000:141.  [generated] is the pair returned by
    [keyGen.NewWithSigner()]. *)
Definition CreateAccount (e : EmulatorBackend) (generated : AccountKey * Signer)
  : (GoError + Account) * EmulatorBackend :=
  let '(generatedKey, generatedSigner) := generated in
  let '(ret, l) := emulator_CreateAccount (ledger (blockchain e)) [generatedKey] in
  let e := set_blockchain {| ledger := l; submitted := submitted (blockchain e) |} e in
  match ret with
  | inl err => (inl err, e)
  | inr address =>
      let publicKey := PublicKey_Encode generatedKey in
      (* Store the generated key and signer info. *)
      let e :=
        {| blockchain := blockchain e; blockOffset := blockOffset e;
           accountKeys :=
             <[address := {[publicKey := {| accountKey := Some generatedKey;
                                            signer := Some generatedSigner |}]}]>
               (accountKeys e);
           configuration := configuration e |} in
      (inr {| Account_Address := address; Account_PublicKey := publicKey |}, e)
  end.

End CreateAccount.

(** ** Successive submissions *)

Section Submissions.

Context `{FlowSDK} `{!Emulator} `{CadenceParser}.

(** [submits e n e']: [n] calls of [AddTransaction], each returning nil,
    lead from [e] to [e'], with no other call on the backend in between. *)
Inductive submits : EmulatorBackend -> nat -> EmulatorBackend -> Prop :=
| submits_none (e : EmulatorBackend) : submits e 0 e
| submits_more (e e1 e2 : EmulatorBackend) (n : nat) code authorizers signers args :
    submits e n e1 ->
    AddTransaction e1 code authorizers signers args = (Normal None, e2) ->
    submits e (S n) e2.

(** The ledger leaves the sequence number of the service key alone while
    transactions are only being added to the pending block. *)
Definition addingKeepsServiceKey : Prop :=
  forall l tx,
    ServiceKey_SequenceNumber (emulator_ServiceKey (snd (emulator_AddTransaction l tx)))
    = ServiceKey_SequenceNumber (emulator_ServiceKey l).

End Submissions.

(** ** Further collaborators *)

(** A suite whose [setup] returns an error. *)
Definition suiteSetupFails : CadenceRuntime :=
  scriptedRuntime suiteDeclarations
    ["setup"; "beforeEach"; "tearDown"; "testA"; "helper"; "testB"; "testC"]
    (fun name _ =>
       if String.eqb name "setup" then Normal (Some (ErrorMessage "setup failed"))
       else Normal None).

(** A suite in which one case fails an assertion and [tearDown] returns an
    error. *)
Definition suiteTearDownFails : CadenceRuntime :=
  scriptedRuntime suiteDeclarations
    ["beforeEach"; "tearDown"; "testA"; "helper"; "testB"; "testC"]
    (fun name _ =>
       if String.eqb name "testB" then Normal (Some (ErrorMessage "assertion failed"))
       else if String.eqb name "tearDown" then Normal (Some (ErrorMessage "tearDown failed"))
       else Normal None).

(** A suite whose [afterEach] returns an error. *)
Definition suiteAfterEachFails : CadenceRuntime :=
  scriptedRuntime suiteDeclarations
    ["setup"; "afterEach"; "tearDown"; "testA"; "helper"; "testB"; "testC"]
    (fun name _ =>
       if String.eqb name "afterEach" then Normal (Some (ErrorMessage "afterEach failed"))
       else Normal None).

(** A script in which [testB] takes a parameter. *)
Definition suiteMalformed : CadenceRuntime :=
  scriptedRuntime
    [testFunction "testA";
     {| Identifier := "testB"; ParameterList_IsEmpty := false;
        ReturnTypeAnnotation := None |}]
    ["setup"; "testA"; "testB"]
    (fun _ _ => Normal None).

(** Quoting that only wraps the text in double quotes. *)
Definition plainPrinting : Printing :=
  {| PendingBlockTransactionsExhausted_Error := "no pending transactions";
     fmt_q := fun s => dquote ++ text s ++ dquote |}.

(** Accounts are created at one fixed address; every key has the same
    encoding. *)
Definition plainAccounts : @AccountCreation plainTypes countingEmulator :=
  {| emulator_CreateAccount :=
       fun (l : @Ledger plainTypes countingEmulator) (_ : list (@AccountKey plainTypes)) =>
         (inr ("01cf0e2f2f715450" : @Address plainTypes), l);
     PublicKey_Encode := fun _ : @AccountKey plainTypes => "af03" |}.

(** The backend after the creation of one account, and that account. *)
Definition backendWithAccount : @EmulatorBackend plainTypes countingEmulator :=
  snd (@CreateAccount plainTypes countingEmulator plainAccounts freshBackend (tt, tt)).

Definition createdAccount : @Account plainTypes :=
  {| Account_Address := "01cf0e2f2f715450" : @Address plainTypes;
     Account_PublicKey := "af03" |}.

(** The busy backend after one and after two more transactions. *)
Definition afterOneSubmission : @EmulatorBackend plainTypes countingEmulator :=
  snd (@AddTransaction plainTypes plainSDK countingEmulator fooParser busyBackend
         (text "transaction {}") [] [] []).

Definition afterTwoSubmissions : @EmulatorBackend plainTypes countingEmulator :=
  snd (@AddTransaction plainTypes plainSDK countingEmulator fooParser afterOneSubmission
         (text "transaction {}") [] [] []).

(** A suite with every hook and a single case, which fails an assertion. *)
Definition suiteSingleCase : CadenceRuntime :=
  scriptedRuntime [testFunction "helper"; testFunction "testA"]
    ["setup"; "beforeEach"; "afterEach"; "tearDown"; "helper"; "testA"]
    (fun name _ =>
       if String.eqb name "testA" then Normal (Some (ErrorMessage "assertion failed"))
       else Normal None).

(** * Properties *)

(** ** Panic handling *)

(** Called from inside the deferred closure, [recoverPanics] sees no panic:
    it reports nothing and the panic stays in flight. *)
Lemma recoverPanics_nested (panicking : option PanicValue) :
  recoverPanics NestedCall panicking = (None, panicking).
Proof. reflexivity. Qed.

(** Had [recoverPanics] itself been the deferred function, it would stop the
    panic and hand its value to [onError]. *)
Lemma recoverPanics_deferred (v : PanicValue) :
  recoverPanics DeferredCall (Some v)
  = (Some match v with PanicError e => e | PanicOther s => fmt_Errorf_s s end, None).
Proof. destruct v; reflexivity. Qed.

Lemma deferredRecoverPanics_eq {A} (body : BodyEnd A) :
  deferredRecoverPanics body
  = match body with
    | Returned result err => Normal (result, err)
    | Panicking v _ _ => Panic v
    end.
Proof. destruct body; reflexivity. Qed.

(** ** Traces *)

Lemma countInvocations_app name (t1 t2 : list Invocation) :
  countInvocations name (t1 ++ t2) = (countInvocations name t1 + countInvocations name t2)%nat.
Proof. unfold countInvocations. rewrite List.filter_app, length_app. reflexivity. Qed.

Lemma eachHooksPass_app (t1 t2 : list Invocation) :
  eachHooksPass (t1 ++ t2) = eachHooksPass t1 && eachHooksPass t2.
Proof. apply forallb_app. Qed.

Lemma setupPasses_app (t1 t2 : list Invocation) :
  setupPasses (t1 ++ t2) = setupPasses t1 && setupPasses t2.
Proof. apply forallb_app. Qed.

Lemma noPanics_app (t1 t2 : list Invocation) :
  noPanics (t1 ++ t2) = noPanics t1 && noPanics t2.
Proof. apply forallb_app. Qed.

Lemma executedCases_app (t1 t2 : list Invocation) :
  executedCases (t1 ++ t2) = executedCases t1 ++ executedCases t2.
Proof. unfold executedCases. rewrite map_app, List.filter_app. reflexivity. Qed.

(** A name with the test prefix is none of the four hooks. *)
Lemma test_prefix_not_hook (name : string) :
  String.prefix testFunctionPrefix name = true ->
  String.eqb name tearDownFunctionName = false
  /\ String.eqb name setupFunctionName = false
  /\ isEachHook name = false.
Proof.
  unfold testFunctionPrefix, isEachHook. intros Hp.
  apply String.prefix_correct in Hp.
  destruct name as [|a1 [|a2 [|a3 [|a4 rest]]]]; cbn in Hp; try discriminate.
  destruct rest; injection Hp as -> -> -> ->; repeat split; reflexivity.
Qed.

Section TestRunnerProperties.

Context `{CadenceRuntime} `{MathRand}.

(** With [recover] out of reach, the wrapper adds nothing to the call it
    wraps. *)
Lemma invokeTestFunction_eq (inter : Interpreter) (funcName : string) :
  invokeTestFunction inter funcName = inter_Invoke inter funcName.
Proof.
  unfold invokeTestFunction.
  destruct (inter_Invoke inter funcName) as [[[e|]|v] inter']; reflexivity.
Qed.

Lemma inter_Invoke_spec (inter inter' : Interpreter) funcName o :
  inter_Invoke inter funcName = (o, inter') ->
  Globals inter' = Globals inter /\ trace inter' = trace inter ++ [(funcName, o)].
Proof.
  unfold inter_Invoke.
  destruct (interp_Invoke (Globals inter) (heap inter) funcName) as [o' h].
  intros [= <- <-]. split; reflexivity.
Qed.

Lemma runHook_spec (present : bool) name (inter inter' : Interpreter) o :
  (if negb present then (Normal None, inter) else invokeTestFunction inter name)
  = (o, inter') ->
  Globals inter' = Globals inter
  /\ trace inter' = trace inter ++ hookTrace present name o
  /\ (present = false -> o = Normal None).
Proof.
  destruct present; simpl.
  - rewrite invokeTestFunction_eq. intros Hi.
    apply inter_Invoke_spec in Hi as [HG HT]. repeat split; [assumption.. | discriminate].
  - intros [= <- <-]. rewrite app_nil_r. repeat split; reflexivity.
Qed.

End TestRunnerProperties.

Lemma case_entry (name : string) (o : Outcome error) :
  String.prefix testFunctionPrefix name = true ->
  countInvocations tearDownFunctionName [(name, o)] = O
  /\ eachHooksPass [(name, o)] = true
  /\ setupPasses [(name, o)] = true
  /\ executedCases [(name, o)] = [name].
Proof.
  intros Hp. destruct (test_prefix_not_hook name Hp) as (Ht & Hs & Hh).
  unfold countInvocations, eachHooksPass, setupPasses, executedCases.
  cbn [List.filter map fst snd forallb].
  rewrite Ht, Hh, Hs, Hp. repeat split; reflexivity.
Qed.

Lemma hookTrace_count (present : bool) (name : string) (o : Outcome error) :
  String.eqb name tearDownFunctionName = false ->
  countInvocations tearDownFunctionName (hookTrace present name o) = O.
Proof.
  intros Hn. destruct present; [|reflexivity].
  unfold countInvocations. cbn [hookTrace List.filter fst]. rewrite Hn. reflexivity.
Qed.

Lemma hookTrace_executed (present : bool) (name : string) (o : Outcome error) :
  String.prefix testFunctionPrefix name = false ->
  executedCases (hookTrace present name o) = [].
Proof.
  intros Hn. destruct present; [|reflexivity].
  unfold executedCases. cbn [hookTrace List.filter map fst]. rewrite Hn. reflexivity.
Qed.

Lemma hookTrace_passes (present : bool) (name : string) :
  eachHooksPass (hookTrace present name (Normal None)) = true.
Proof.
  destruct present; [|reflexivity].
  unfold eachHooksPass. cbn [hookTrace forallb fst snd succeeded].
  destruct (isEachHook name); reflexivity.
Qed.

Lemma hookTrace_not_each (present : bool) (name : string) (o : Outcome error) :
  isEachHook name = false -> eachHooksPass (hookTrace present name o) = true.
Proof.
  intros Hn. destruct present; [|reflexivity].
  unfold eachHooksPass. cbn [hookTrace forallb fst snd]. rewrite Hn. reflexivity.
Qed.

Lemma hookTrace_not_setup (present : bool) (name : string) (o : Outcome error) :
  String.eqb name setupFunctionName = false ->
  setupPasses (hookTrace present name o) = true.
Proof.
  intros Hn. destruct present; [|reflexivity].
  unfold setupPasses. cbn [hookTrace forallb fst snd]. rewrite Hn. reflexivity.
Qed.

Lemma hookTrace_returned (present : bool) (name : string) (err : error) :
  noPanics (hookTrace present name (Normal err)) = true.
Proof. destruct present; reflexivity. Qed.

Section TestRunnerLoop.

Context `{CadenceRuntime} `{MathRand}.

(** What one pass over the test cases leaves behind. *)
Lemma forEachTestCase_spec (testCases : list FunctionDeclaration) :
  Forall (fun d => String.prefix testFunctionPrefix (Identifier d) = true) testCases ->
  forall (results : Results) (inter inter' : Interpreter) ended,
    forEachTestCase testCases results inter = (ended, inter') ->
    Globals inter' = Globals inter
    /\ exists delta,
         trace inter' = trace inter ++ delta
         /\ countInvocations tearDownFunctionName delta = O
         /\ setupPasses delta = true
         /\ match ended with
            | inr results' =>
                noPanics delta = true
                /\ eachHooksPass delta = true
                /\ executedCases delta = map Identifier testCases
                /\ map TestName results' = map TestName results ++ map Identifier testCases
            | inl (Returned rs err) =>
                noPanics delta = true
                /\ rs = [] /\ eachHooksPass delta = false
                /\ exists hook e, isEachHook hook = true
                     /\ last delta = Some (hook, Normal (Some e)) /\ err = Some e
            | inl (Panicking v _ _) =>
                noPanics delta = false /\ exists name, last delta = Some (name, Panic v)
            end.
Proof.
  induction 1 as [|funcDecl rest Hp Hrest IH]; intros results inter inter' ended Hrun.
  - cbn in Hrun. injection Hrun as <- <-. split; [reflexivity|].
    exists []. rewrite !app_nil_r. repeat split; reflexivity.
  - cbn [forEachTestCase] in Hrun.
    destruct (runBeforeEach inter) as [o1 i1] eqn:E1.
    apply runHook_spec in E1 as (G1 & T1 & N1).
    destruct o1 as [[e1|]|v1].
    + injection Hrun as <- <-. split; [assumption|].
      eexists; split; [eassumption|].
      destruct (hasBeforeEach inter); [|specialize (N1 eq_refl); discriminate].
      repeat split; try reflexivity. exists beforeEachFunctionName, e1. repeat split.
    + destruct (invokeTestFunction i1 (Identifier funcDecl)) as [o2 i2] eqn:E2.
      rewrite invokeTestFunction_eq in E2. apply inter_Invoke_spec in E2 as (G2 & T2).
      destruct (case_entry (Identifier funcDecl) o2 Hp) as (C2 & P2 & S2 & X2).
      destruct o2 as [testErr|v2].
      * destruct (runAfterEach i2) as [o3 i3] eqn:E3.
        apply runHook_spec in E3 as (G3 & T3 & N3).
        destruct o3 as [[e3|]|v3].
        -- injection Hrun as <- <-. split; [congruence|].
           eexists. split; [rewrite T3, T2, T1, <- !app_assoc; reflexivity|].
           rewrite !countInvocations_app, !eachHooksPass_app, !setupPasses_app,
             !noPanics_app, C2, P2, S2, hookTrace_passes, !hookTrace_returned.
           rewrite !hookTrace_count, !hookTrace_not_setup by reflexivity.
           destruct (hasAfterEach i2); [|specialize (N3 eq_refl); discriminate].
           repeat split; try reflexivity.
           exists afterEachFunctionName, e3. repeat split.
           rewrite ?app_assoc. apply last_snoc.
        -- apply IH in Hrun as (G4 & delta & T4 & C4 & S4 & Hend).
           split; [congruence|].
           eexists. split; [rewrite T4, T3, T2, T1, <- !app_assoc; reflexivity|].
           rewrite !countInvocations_app, !setupPasses_app, !noPanics_app, C2, C4, S2, S4,
             !hookTrace_returned.
           rewrite !hookTrace_count, !hookTrace_not_setup by reflexivity.
           do 2 (split; [reflexivity|]).
           destruct ended as [[rs err|v rs err]|results'].
           ++ destruct Hend as (Hnp & -> & Hfail & hook & e & Hh & Hl & ->).
              rewrite Hnp, !eachHooksPass_app, Hfail, !andb_false_r. repeat split.
              exists hook, e. repeat split; [assumption|].
              rewrite ?app_assoc. rewrite last_app, Hl. reflexivity.
           ++ destruct Hend as (Hnp & name & Hl).
              rewrite Hnp, !andb_false_r. split; [reflexivity|].
              exists name. rewrite ?app_assoc. rewrite last_app, Hl. reflexivity.
           ++ destruct Hend as (Hnp & Hpass & Hexec & Hnames).
              rewrite Hnp, !eachHooksPass_app, !executedCases_app, P2, Hpass, X2, Hexec.
              rewrite !hookTrace_passes. rewrite !hookTrace_executed by reflexivity.
              repeat split. rewrite Hnames, map_app. cbn. rewrite <- app_assoc. reflexivity.
        -- injection Hrun as <- <-. split; [congruence|].
           eexists. split; [rewrite T3, T2, T1, <- !app_assoc; reflexivity|].
           rewrite !countInvocations_app, !setupPasses_app, C2, S2.
           rewrite !hookTrace_count, !hookTrace_not_setup by reflexivity.
           do 2 (split; [reflexivity|]).
           destruct (hasAfterEach i2); [|specialize (N3 eq_refl); discriminate].
           rewrite !noPanics_app. split; [cbn; rewrite !andb_false_r; reflexivity|].
           exists afterEachFunctionName. rewrite ?app_assoc. apply last_snoc.
      * injection Hrun as <- <-. split; [congruence|].
        eexists. split; [rewrite T2, T1, <- !app_assoc; reflexivity|].
        rewrite !countInvocations_app, !setupPasses_app, C2, S2.
        rewrite !hookTrace_count, !hookTrace_not_setup by reflexivity.
        do 2 (split; [reflexivity|]).
        rewrite !noPanics_app. split; [cbn; rewrite !andb_false_r; reflexivity|].
        exists (Identifier funcDecl). rewrite ?app_assoc. apply last_snoc.
    + injection Hrun as <- <-. split; [assumption|].
      eexists; split; [eassumption|].
      destruct (hasBeforeEach inter); [|specialize (N1 eq_refl); discriminate].
      repeat split; try reflexivity. exists beforeEachFunctionName. reflexivity.
Qed.

End TestRunnerLoop.

(** ** The shuffle *)

Lemma insert_Permutation {A} (l : list A) (i : nat) (x y : A) :
  l !! i = Some x -> x :: <[i := y]> l ≡ₚ y :: l.
Proof.
  intros Hx.
  assert (Hy : <[i := y]> l !! i = Some y)
    by (apply list_lookup_insert_eq; eapply lookup_lt_Some; eassumption).
  assert (Hd : delete i (<[i := y]> l) = delete i l).
  { rewrite !delete_take_drop, take_insert_ge by lia. rewrite drop_insert_lt by lia. reflexivity. }
  transitivity (x :: y :: delete i l).
  - constructor. rewrite <- Hd. apply delete_Permutation, Hy.
  - rewrite Permutation_swap. constructor. symmetry. apply delete_Permutation, Hx.
Qed.

Lemma swapTestCases_Permutation {A} (testCases : list A) (i j : nat) :
  (i < length testCases)%nat -> (j < length testCases)%nat ->
  exists testCases', swapTestCases testCases i j = Normal testCases'
                     /\ testCases' ≡ₚ testCases.
Proof.
  intros Hi Hj. unfold swapTestCases.
  destruct (lookup_lt_is_Some_2 _ _ Hi) as [ti Hti].
  destruct (lookup_lt_is_Some_2 _ _ Hj) as [tj Htj].
  rewrite Hti, Htj. eexists. split; [reflexivity|].
  assert (Hj' : <[i := tj]> testCases !! j = Some tj).
  { destruct (decide (i = j)) as [->|Hne].
    - apply list_lookup_insert_eq; assumption.
    - rewrite list_lookup_insert_ne by assumption. assumption. }
  apply (Permutation_cons_inv (a := tj)), (Permutation_cons_inv (a := ti)).
  transitivity (ti :: ti :: <[i := tj]> testCases).
  - constructor. apply insert_Permutation, Hj'.
  - constructor. apply insert_Permutation, Hti.
Qed.

Section ShuffleProperties.

Context `{MathRand}.

Lemma shuffleDownFrom_Permutation {A} (i : nat) :
  drawsBelowBound ->
  forall (rng : RngState) (testCases : list A),
    (i < length testCases)%nat \/ i = O ->
    exists testCases', shuffleDownFrom i rng testCases = Normal testCases'
                       /\ testCases' ≡ₚ testCases.
Proof.
  intros Hdraw. induction i as [|i IH]; intros rng testCases Hi.
  - eexists. split; reflexivity.
  - cbn [shuffleDownFrom].
    specialize (Hdraw rng (S i)).
    destruct (rand_int31n rng (S (S i))) as [j rng'] eqn:Ej. cbn in Hdraw.
    destruct Hi as [Hi|Hi]; [|discriminate].
    destruct (swapTestCases_Permutation testCases (S i) j) as (l1 & -> & P1); [lia..|].
    destruct (IH rng' l1) as (l2 & -> & P2).
    { left. rewrite (Permutation_length P1). lia. }
    exists l2. split; [reflexivity|]. etransitivity; eassumption.
Qed.

Lemma orderTestCases_Permutation (r : TestRunner) (testCases : list FunctionDeclaration) :
  drawsBelowBound ->
  exists ordered, orderTestCases r testCases = Normal ordered /\ ordered ≡ₚ testCases.
Proof.
  intros Hdraw. unfold orderTestCases, rand_Shuffle.
  destruct (0 <? randomSeed r)%Z.
  - apply shuffleDownFrom_Permutation; [assumption|]. destruct testCases; cbn; [right|left]; lia.
  - eexists. split; reflexivity.
Qed.

End ShuffleProperties.

Lemma hookTrace_setup_succeeded (present : bool) (name : string) (o : Outcome error) :
  succeeded o = true -> setupPasses (hookTrace present name o) = true.
Proof.
  intros Ho. destruct present; [|reflexivity].
  unfold setupPasses. cbn [hookTrace forallb fst snd]. rewrite Ho.
  destruct (String.eqb name setupFunctionName); reflexivity.
Qed.

Section RunTestsProperties.

Context `{CadenceRuntime} `{MathRand}.

Lemma discoverTestCases_prefixed (program : Program) :
  Forall (fun d => String.prefix testFunctionPrefix (Identifier d) = true)
         (discoverTestCases program).
Proof.
  unfold discoverTestCases. apply List.Forall_forall. intros d Hd.
  apply List.filter_In in Hd. apply Hd.
Qed.

Lemma parseCheckAndInterpret_fresh (script : string) program (inter : Interpreter) :
  parseCheckAndInterpret script = Normal (inr (program, inter)) ->
  trace inter = [].
Proof.
  unfold parseCheckAndInterpret.
  destruct (ParseAndCheckProgram script) as [[e|p]|v]; try discriminate.
  destruct (checkTestFunctions (FunctionDeclarations p)); try discriminate.
  destruct (env_Interpret p) as [[e|[g h]]|v]; try discriminate.
  intros [= <- <-]. reflexivity.
Qed.

(** Everything [RunTests] does once the script is interpreted, read off the
    trace it leaves. *)
Lemma RunTests_steps_spec (r : TestRunner) (program : Program)
    (inter inter' : Interpreter) (body : BodyEnd Results) :
  drawsBelowBound ->
  trace inter = [] ->
  RunTests_steps r program inter = (body, inter') ->
  match body with
  | Panicking v _ _ =>
      noPanics (trace inter') = false
      /\ exists name, last (trace inter') = Some (name, Panic v)
  | Returned results err =>
      noPanics (trace inter') = true
      /\ if setupPasses (trace inter') then
           exists ordered,
             orderTestCases r (discoverTestCases program) = Normal ordered
             /\ ordered ≡ₚ discoverTestCases program
             /\ if eachHooksPass (trace inter') then
                  countInvocations tearDownFunctionName (trace inter')
                  = (if hasTearDown inter then 1 else 0)%nat
                  /\ executedCases (trace inter') = map Identifier ordered
                  /\ map TestName results = map Identifier ordered
                else
                  results = []
                  /\ countInvocations tearDownFunctionName (trace inter') = O
                  /\ exists hook e, isEachHook hook = true
                       /\ last (trace inter') = Some (hook, Normal (Some e))
                       /\ err = Some e
         else results = [] /\ countInvocations tearDownFunctionName (trace inter') = O
  end.
Proof.
  intros Hdraw Hfresh. unfold RunTests_steps, call.
  destruct (runTestSetup inter) as [o0 i0] eqn:E0.
  apply runHook_spec in E0 as (G0 & T0 & N0). rewrite Hfresh, app_nil_l in T0.
  destruct o0 as [[e0|]|v0].
  - intros [= <- <-]. rewrite T0.
    destruct (hasSetup inter); [|specialize (N0 eq_refl); discriminate].
    repeat split.
  - destruct (orderTestCases_Permutation r (discoverTestCases program) Hdraw)
      as (ordered & Hord & Hperm).
    rewrite Hord.
    assert (Hpre : Forall (fun d => String.prefix testFunctionPrefix (Identifier d) = true) ordered).
    { rewrite Hperm. apply discoverTestCases_prefixed. }
    destruct (forEachTestCase ordered [] i0) as [ended i1] eqn:E1.
    apply (forEachTestCase_spec _ Hpre) in E1 as (G1 & delta & T1 & C1 & S1 & Hend).
    pose proof (hookTrace_setup_succeeded (hasSetup inter) setupFunctionName
                  (Normal None) eq_refl) as HS0.
    destruct ended as [[rs err|v rs err]|results].
    + intros [= <- <-]. destruct Hend as (Hnp & -> & Hfail & hook & e & Hh & Hl & ->).
      rewrite T1, T0, noPanics_app, setupPasses_app, eachHooksPass_app, countInvocations_app,
        hookTrace_returned, HS0, Hnp, S1, Hfail, C1, andb_false_r.
      rewrite hookTrace_count by reflexivity.
      split; [reflexivity|]. exists ordered. repeat split; [assumption|].
      exists hook, e. repeat split; [assumption|]. rewrite last_app, Hl. reflexivity.
    + intros [= <- <-]. destruct Hend as (Hnp & name & Hl).
      rewrite T1, noPanics_app, Hnp, andb_false_r. split; [reflexivity|].
      exists name. rewrite last_app, Hl. reflexivity.
    + destruct Hend as (Hnp & Hpass & Hexec & Hnames).
      destruct (runTestTearDown i1) as [o2 i2] eqn:E2.
      apply runHook_spec in E2 as (G2 & T2 & N2).
      assert (HT : hasTearDown i1 = hasTearDown inter).
      { unfold hasTearDown, Globals_Contains. rewrite G1, G0. reflexivity. }
      rewrite HT in T2, N2.
      destruct o2 as [err|v2].
      * intros [= <- <-].
        rewrite T2, T1, T0, !noPanics_app, !setupPasses_app, !eachHooksPass_app,
          !countInvocations_app, !executedCases_app, !hookTrace_returned, HS0, Hnp, S1,
          Hpass, C1, Hexec, hookTrace_passes.
        rewrite !hookTrace_not_setup, !hookTrace_not_each, !hookTrace_executed,
          hookTrace_count by reflexivity.
        split; [reflexivity|]. exists ordered. repeat split; try assumption.
        -- destruct (hasTearDown inter); reflexivity.
        -- rewrite app_nil_r. reflexivity.
      * intros [= <- <-].
        destruct (hasTearDown inter); [|specialize (N2 eq_refl); discriminate].
        rewrite T2, noPanics_app. split; [cbn; apply andb_false_r|].
        exists tearDownFunctionName. apply last_snoc.
  - intros [= <- <-]. rewrite T0.
    destruct (hasSetup inter); [|specialize (N0 eq_refl); discriminate].
    split; [reflexivity|]. exists setupFunctionName. reflexivity.
Qed.

End RunTestsProperties.

Section RunTestsClaims.

Context `{CadenceRuntime} `{MathRand}.

(** [RunTests] reads nothing of the runner but its seed. *)
Lemma RunTests_seed_only (r1 r2 : TestRunner) (script : string) :
  randomSeed r1 = randomSeed r2 -> RunTests r1 script = RunTests r2 script.
Proof.
  intros Hseed. unfold RunTests, RunTests_steps, orderTestCases. rewrite Hseed. reflexivity.
Qed.

(** Were an invocation to leave by a panic, [RunTests] would end by that
    panic: its deferred handlers do not stop it. *)
Lemma RunTests_fault_escapes (r : TestRunner) (script : string) program
    (inter : Interpreter) :
  drawsBelowBound ->
  parseCheckAndInterpret script = Normal (inr (program, inter)) ->
  noPanics (snd (RunTests r script)) = false ->
  exists name v, last (snd (RunTests r script)) = Some (name, Panic v)
                 /\ fst (RunTests r script) = Panic v.
Proof.
  intros Hdraw Hparse. unfold RunTests. rewrite Hparse.
  destruct (RunTests_steps r program inter) as [body inter'] eqn:Hsteps.
  apply RunTests_steps_spec in Hsteps;
    [|assumption|eapply parseCheckAndInterpret_fresh; eassumption].
  cbn [fst snd]. rewrite deferredRecoverPanics_eq.
  destruct body as [results err|v results err].
  - destruct Hsteps as [Hnp _]. rewrite Hnp. discriminate.
  - destruct Hsteps as [_ [name Hl]]. intros _. exists name, v. split; [assumption|reflexivity].
Qed.

(** C1, as amended: once the script is parsed, checked and interpreted and
    [setup] (if present) has succeeded, a run of [RunTests] in which no
    invocation faults invokes [tearDown] (when present) exactly once if every
    [beforeEach] and [afterEach] invocation succeeds, however many test
    cases fail, and not at all if one of those hook invocations fails. *)
Theorem RunTests_tearDown_once_unless_hook_fails (r : TestRunner) (script : string)
    program (inter : Interpreter) :
  drawsBelowBound ->
  parseCheckAndInterpret script = Normal (inr (program, inter)) ->
  hasTearDown inter = true ->
  noPanics (snd (RunTests r script)) = true ->
  setupPasses (snd (RunTests r script)) = true ->
  (exists results err, fst (RunTests r script) = Normal (results, err))
  /\ countInvocations tearDownFunctionName (snd (RunTests r script))
     = (if eachHooksPass (snd (RunTests r script)) then 1 else 0)%nat.
Proof.
  intros Hdraw Hparse Htear. unfold RunTests. rewrite Hparse.
  destruct (RunTests_steps r program inter) as [body inter'] eqn:Hsteps.
  apply RunTests_steps_spec in Hsteps;
    [|assumption|eapply parseCheckAndInterpret_fresh; eassumption].
  cbn [fst snd]. rewrite deferredRecoverPanics_eq. intros Hnp Hsetup.
  destruct body as [results err|v results err].
  - split; [exists results, err; reflexivity|].
    destruct Hsteps as [_ Hsteps]. rewrite Hsetup, Htear in Hsteps.
    destruct Hsteps as (ordered & _ & _ & Hsteps).
    destruct (eachHooksPass (trace inter')).
    + apply Hsteps.
    + apply Hsteps.
  - destruct Hsteps as [Hf _]. congruence.
Qed.

(** C8, as amended: when a [beforeEach] or [afterEach] invocation fails
    during [RunTests] (in a run without faults, after a successful [setup]),
    the failing invocation is the last one made, and the call returns nil
    Results, not the Results accumulated so far, together with that hook's
    error. *)
Theorem RunTests_hook_failure_returns_nil (r : TestRunner) (script : string)
    program (inter : Interpreter) :
  drawsBelowBound ->
  parseCheckAndInterpret script = Normal (inr (program, inter)) ->
  noPanics (snd (RunTests r script)) = true ->
  setupPasses (snd (RunTests r script)) = true ->
  eachHooksPass (snd (RunTests r script)) = false ->
  exists hook e,
    isEachHook hook = true
    /\ last (snd (RunTests r script)) = Some (hook, Normal (Some e))
    /\ fst (RunTests r script) = Normal ([], Some e).
Proof.
  intros Hdraw Hparse. unfold RunTests. rewrite Hparse.
  destruct (RunTests_steps r program inter) as [body inter'] eqn:Hsteps.
  apply RunTests_steps_spec in Hsteps;
    [|assumption|eapply parseCheckAndInterpret_fresh; eassumption].
  cbn [fst snd]. rewrite deferredRecoverPanics_eq. intros Hnp Hsetup Hfail.
  destruct body as [results err|v results err].
  - destruct Hsteps as [_ Hsteps]. rewrite Hsetup, Hfail in Hsteps.
    destruct Hsteps as (ordered & _ & _ & -> & _ & hook & e & Hh & Hl & ->).
    exists hook, e. repeat split; assumption.
  - destruct Hsteps as [Hf _]. congruence.
Qed.

(** C6: [RunTests] reads nothing of the runner but its seed, so two runs
    with equal seeds are the same run; and in a run that completes (no
    fault, no failing hook) the cases are executed, and their Results
    listed, in the order [orderTestCases] gives: a permutation of the
    declared cases, drawn from the generator seeded with the seed when the
    seed is positive, and the declaration order itself otherwise. *)
Theorem RunTests_execution_order (r1 r2 : TestRunner) (script : string) :
  (randomSeed r1 = randomSeed r2 -> RunTests r1 script = RunTests r2 script)
  /\ (forall program (inter : Interpreter),
        drawsBelowBound ->
        parseCheckAndInterpret script = Normal (inr (program, inter)) ->
        noPanics (snd (RunTests r1 script)) = true ->
        setupPasses (snd (RunTests r1 script)) = true ->
        eachHooksPass (snd (RunTests r1 script)) = true ->
        exists ordered results err,
          orderTestCases r1 (discoverTestCases program) = Normal ordered
          /\ ordered ≡ₚ discoverTestCases program
          /\ fst (RunTests r1 script) = Normal (results, err)
          /\ executedCases (snd (RunTests r1 script)) = map Identifier ordered
          /\ map TestName results = map Identifier ordered
          /\ ((randomSeed r1 <= 0)%Z -> ordered = discoverTestCases program)
          /\ ((0 < randomSeed r1)%Z ->
              Normal ordered = rand_Shuffle (rand_NewSource (randomSeed r1))
                                 (discoverTestCases program))).
Proof.
  split; [apply RunTests_seed_only|].
  intros program inter Hdraw Hparse. unfold RunTests. rewrite Hparse.
  destruct (RunTests_steps r1 program inter) as [body inter'] eqn:Hsteps.
  apply RunTests_steps_spec in Hsteps;
    [|assumption|eapply parseCheckAndInterpret_fresh; eassumption].
  cbn [fst snd]. rewrite deferredRecoverPanics_eq. intros Hnp Hsetup Hpass.
  destruct body as [results err|v results err].
  - destruct Hsteps as [_ Hsteps]. rewrite Hsetup, Hpass in Hsteps.
    destruct Hsteps as (ordered & Hord & Hperm & _ & Hexec & Hnames).
    exists ordered, results, err. repeat split; try assumption.
    + intros Hseed. unfold orderTestCases in Hord.
      destruct (Z.ltb_spec 0 (randomSeed r1)); [lia|]. congruence.
    + intros Hseed. unfold orderTestCases in Hord.
      destruct (Z.ltb_spec 0 (randomSeed r1)); [|lia]. congruence.
  - destruct Hsteps as [Hf _]. congruence.
Qed.

End RunTestsClaims.

(** ** The runner on concrete suites *)

(** The counter generator honours the contract of a bounded draw. *)
Lemma counterRand_drawsBelowBound : @drawsBelowBound counterRand.
Proof.
  intros rng n. cbn. pose proof (Nat.mod_upper_bound rng (S n)). lia.
Defined.

(** A case that returns an error does not keep [afterEach] or [tearDown]
    from running in [RunTest]. *)
Example RunTest_failing_case :
  @RunTest suiteOneCaseFails unseededRunner "suite" "testB"
  = (Normal (Some {| TestName := "testB";
                     Error := Some (ErrorMessage "assertion failed") |}, None),
     [("setup", Normal None); ("beforeEach", Normal None);
      ("testB", Normal (Some (ErrorMessage "assertion failed")));
      ("afterEach", Normal None); ("tearDown", Normal None)]).
Proof. vm_compute. reflexivity. Qed.

(** C1, counterexample: the script is parsed, checked and interpreted, it
    has no [setup] and it has a [tearDown]; the second [beforeEach]
    invocation fails, and [RunTests] returns without having invoked
    [tearDown]. *)
Lemma RunTests_beforeEach_failure_skips_tearDown :
  (exists program inter,
     @parseCheckAndInterpret suiteBeforeEachFails "suite" = Normal (inr (program, inter))
     /\ hasSetup inter = false /\ hasTearDown inter = true)
  /\ snd (@RunTests suiteBeforeEachFails counterRand unseededRunner "suite")
     = [("beforeEach", Normal None); ("testA", Normal None);
        ("beforeEach", Normal (Some (ErrorMessage "beforeEach failed")))]
  /\ countInvocations tearDownFunctionName
       (snd (@RunTests suiteBeforeEachFails counterRand unseededRunner "suite")) = O.
Proof.
  split; [|split; vm_compute; reflexivity].
  eexists _, _. split; [reflexivity|]. split; vm_compute; reflexivity.
Qed.

(** The theorem of C1 on the suite in which one case fails an assertion. *)
Lemma RunTests_tearDown_once_witness :
  (exists results err,
     fst (@RunTests suiteOneCaseFails counterRand seededRunner "suite")
     = Normal (results, err))
  /\ countInvocations tearDownFunctionName
       (snd (@RunTests suiteOneCaseFails counterRand seededRunner "suite"))
     = (if eachHooksPass (snd (@RunTests suiteOneCaseFails counterRand seededRunner "suite"))
        then 1 else 0)%nat.
Proof.
  eapply (@RunTests_tearDown_once_unless_hook_fails suiteOneCaseFails counterRand).
  - exact counterRand_drawsBelowBound.
  - reflexivity.
  - vm_compute. reflexivity.
  - vm_compute. reflexivity.
  - vm_compute. reflexivity.
Defined.

(** C8, counterexample: [testA] has completed when the second [beforeEach]
    invocation fails; the call returns the hook's error with no Results at
    all, not with the Result of [testA]. *)
Lemma RunTests_beforeEach_failure_drops_results :
  fst (@RunTests suiteBeforeEachFails counterRand unseededRunner "suite")
  = Normal ([], Some (ErrorMessage "beforeEach failed"))
  /\ executedCases (snd (@RunTests suiteBeforeEachFails counterRand unseededRunner "suite"))
     = ["testA"].
Proof. split; vm_compute; reflexivity. Qed.

(** The theorem of C8 on the suite whose second [beforeEach] fails. *)
Lemma RunTests_hook_failure_returns_nil_witness :
  exists hook e,
    isEachHook hook = true
    /\ last (snd (@RunTests suiteBeforeEachFails counterRand unseededRunner "suite"))
       = Some (hook, Normal (Some e))
    /\ fst (@RunTests suiteBeforeEachFails counterRand unseededRunner "suite")
       = Normal ([], Some e).
Proof.
  eapply (@RunTests_hook_failure_returns_nil suiteBeforeEachFails counterRand).
  - exact counterRand_drawsBelowBound.
  - reflexivity.
  - vm_compute. reflexivity.
  - vm_compute. reflexivity.
  - vm_compute. reflexivity.
Defined.

(** The theorem of C6 on two runners that share the seed 5 and differ in
    their logs. *)
Lemma RunTests_execution_order_witness :
  @RunTests suiteOneCaseFails counterRand seededRunner "suite"
  = @RunTests suiteOneCaseFails counterRand seededRunnerWithLogs "suite"
  /\ exists ordered,
       ordered ≡ₚ [testFunction "testA"; testFunction "testB"; testFunction "testC"]
       /\ executedCases (snd (@RunTests suiteOneCaseFails counterRand seededRunner "suite"))
          = map Identifier ordered.
Proof.
  destruct (@RunTests_execution_order suiteOneCaseFails counterRand
              seededRunner seededRunnerWithLogs "suite") as [Hsame Horder].
  split; [apply Hsame; reflexivity|].
  edestruct Horder as (ordered & results & err & _ & Hperm & _ & Hexec & _).
  - exact counterRand_drawsBelowBound.
  - reflexivity.
  - vm_compute. reflexivity.
  - vm_compute. reflexivity.
  - vm_compute. reflexivity.
  - exists ordered. split; [exact Hperm | exact Hexec].
Defined.

(** The order drawn with seed 5 on the three cases of the suite. *)
Example RunTests_seeded_order :
  executedCases (snd (@RunTests suiteOneCaseFails counterRand seededRunner "suite"))
  = ["testB"; "testA"; "testC"]
  /\ executedCases (snd (@RunTests suiteOneCaseFails counterRand unseededRunner "suite"))
     = ["testA"; "testB"; "testC"].
Proof. split; vm_compute; reflexivity. Qed.

(** ** Import rewriting *)

Lemma slice_in_bounds (code : list ascii) (lo hi : Z) :
  (0 <= lo <= hi)%Z -> (hi <= Z.of_nat (length code))%Z ->
  slice code lo hi = Normal (drop (Z.to_nat lo) (take (Z.to_nat hi) code)).
Proof.
  intros Hlo Hhi. unfold slice.
  destruct (Z.leb_spec 0 lo); [|lia].
  destruct (Z.leb_spec lo hi); [|lia].
  destruct (Z.leb_spec hi (Z.of_nat (length code))); [|lia].
  cbn [andb]. rewrite take_drop_commute. do 3 f_equal. lia.
Qed.

Section ImportRewritingProperties.

Context `{FlowSDK} `{!Emulator} `{CadenceParser}.

Lemma importsInSourceOrder_bounds (code : list ascii) (declarations : list ImportDeclaration) :
  forall from, importsInSourceOrder code from declarations = true ->
               (0 <= from <= Z.of_nat (length code))%Z.
Proof.
  induction declarations as [|d rest IH]; intros from Hord; cbn in Hord.
  - apply andb_true_iff in Hord as [Ha Hb0]. lia.
  - apply andb_true_iff in Hord as [Hd Hrest].
    apply andb_true_iff in Hd as [Hd Hc]. apply andb_true_iff in Hd as [Ha Hb0].
    specialize (IH _ Hrest). lia.
Qed.

(** Rewriting declarations that start at [from] or later leaves the text
    before [from] as it is. *)
Lemma rewriteImportTargets_prefix (addresses : gmap string Address) (code : list ascii)
    (declarations : list ImportDeclaration) :
  forall from, importsInSourceOrder code from declarations = true ->
    take (Z.to_nat from) (rewriteImportTargets addresses code declarations)
    = take (Z.to_nat from) code
    /\ (Z.to_nat from <= length (rewriteImportTargets addresses code declarations))%nat.
Proof.
  induction declarations as [|d rest IH]; intros from Hord.
  - apply importsInSourceOrder_bounds in Hord. cbn. split; [reflexivity|lia].
  - cbn in Hord. apply andb_true_iff in Hord as [Hd Hrest].
    apply andb_true_iff in Hd as [Hd Hc]. apply andb_true_iff in Hd as [Ha Hb0].
    destruct (IH _ Hrest) as [Htake Hlen].
    pose proof (importsInSourceOrder_bounds _ _ _ Hrest) as Hb.
    set (R := rewriteImportTargets addresses code rest) in *.
    assert (Hpre : forall n, (n <= Z.to_nat (EndPos_Offset d + 1))%nat -> take n R = take n code).
    { intros n Hn.
      replace n with (min n (Z.to_nat (EndPos_Offset d + 1))) by lia.
      rewrite <- !take_take, Htake. reflexivity. }
    cbn [rewriteImportTargets]. fold R.
    destruct (importTarget addresses d) as [literal|].
    + unfold splice. split.
      * rewrite take_app_le by (rewrite length_take; lia).
        rewrite take_take. replace (min _ _) with (Z.to_nat from) by lia.
        apply Hpre. lia.
      * rewrite length_app, length_take. lia.
    + split; [apply Hpre; lia | lia].
Qed.

(** The loop of [replaceImports] builds the text that the rewriting of the
    targets describes. *)
Lemma replaceImportDeclarations_spec (addresses : gmap string Address) (code : list ascii)
    (declarations : list ImportDeclaration) :
  forall sb from,
    importsInSourceOrder code from declarations = true ->
    exists sb' importDeclEnd,
      replaceImportDeclarations addresses code declarations sb from
      = Normal (sb', importDeclEnd)
      /\ (0 <= importDeclEnd <= Z.of_nat (length code))%Z
      /\ sb' ++ drop (Z.to_nat importDeclEnd) code
         = sb ++ drop (Z.to_nat from) (rewriteImportTargets addresses code declarations).
Proof.
  induction declarations as [|d rest IH]; intros sb from Hord.
  - exists sb, from. apply importsInSourceOrder_bounds in Hord. repeat split; lia || reflexivity.
  - pose proof (importsInSourceOrder_bounds _ _ _ Hord) as Hfrom.
    cbn in Hord. apply andb_true_iff in Hord as [Hd Hrest].
    apply andb_true_iff in Hd as [Hd Hc]. apply andb_true_iff in Hd as [Ha Hb0].
    pose proof (importsInSourceOrder_bounds _ _ _ Hrest) as Hb.
    destruct (rewriteImportTargets_prefix addresses _ _ _ Hrest) as [Htake Hlen].
    set (R := rewriteImportTargets addresses code rest) in *.
    assert (Hpre : forall n, (n <= Z.to_nat (EndPos_Offset d + 1))%nat -> take n R = take n code).
    { intros n Hn.
      replace n with (min n (Z.to_nat (EndPos_Offset d + 1))) by lia.
      rewrite <- !take_take, Htake. reflexivity. }
    assert (Hkeep : importTarget addresses d = None ->
              exists sb' importDeclEnd,
                match slice code from (EndPos_Offset d + 1) with
                | Panic v => Panic v
                | Normal s =>
                    replaceImportDeclarations addresses code rest (sb ++ s)
                      (EndPos_Offset d + 1)
                end = Normal (sb', importDeclEnd)
                /\ (0 <= importDeclEnd <= Z.of_nat (length code))%Z
                /\ sb' ++ drop (Z.to_nat importDeclEnd) code
                   = sb ++ drop (Z.to_nat from)
                             (rewriteImportTargets addresses code (d :: rest))).
    { intros Hnone. rewrite slice_in_bounds by lia.
      destruct (IH (sb ++ drop (Z.to_nat from) (take (Z.to_nat (EndPos_Offset d + 1)) code))
                   _ Hrest) as (sb' & e' & Hrun & Hbe & Heq).
      exists sb', e'. repeat split; try assumption || lia.
      rewrite Heq. cbn [rewriteImportTargets]. rewrite Hnone. fold R.
      rewrite <- app_assoc. f_equal.
      rewrite <- (Hpre (Z.to_nat (EndPos_Offset d + 1))) by lia.
      apply drop_take_drop. lia. }
    cbn [replaceImportDeclarations].
    destruct (ImportLocation d) as [location|a n|n] eqn:Hloc;
      try (apply Hkeep; unfold importTarget; rewrite Hloc; reflexivity).
    destruct (addresses !! location) as [address|] eqn:Haddr;
      [|apply Hkeep; unfold importTarget; rewrite Hloc, Haddr; reflexivity].
    rewrite slice_in_bounds by lia.
    destruct (IH ((sb ++ drop (Z.to_nat from) (take (Z.to_nat (LocationPos_Offset d)) code))
                  ++ text "0x" ++ text (Address_String address)) _ Hrest)
      as (sb' & e' & Hrun & Hbe & Heq).
    exists sb', e'. repeat split; try assumption || lia.
    rewrite Heq. cbn [rewriteImportTargets]. unfold importTarget. rewrite Hloc, Haddr.
    cbn [fmap option_fmap option_map]. fold R. unfold splice, addressLiteral.
    rewrite <- !app_assoc. f_equal.
    rewrite drop_app_le by (rewrite length_take; lia).
    rewrite Hpre by lia. reflexivity.
Qed.

End ImportRewritingProperties.

Section EmulatorBackendProperties.

Context `{FlowSDK} `{!Emulator} `{CadenceParser}.

Lemma rewriteImportTargets_unmapped (addresses : gmap string Address) (code : list ascii)
    (declarations : list ImportDeclaration) :
  Forall (fun d => importTarget addresses d = None) declarations ->
  rewriteImportTargets addresses code declarations = code.
Proof.
  induction 1 as [|d rest Hd _ IH]; [reflexivity|].
  cbn [rewriteImportTargets]. rewrite Hd. exact IH.
Qed.

(** C5: without a configuration the source text comes back unchanged; with
    one, and a source the parser accepts, the result is the source in
    which exactly the imports whose location is a string path present in
    the address table have their target replaced by the address literal,
    every other byte being kept; in particular a source whose imports are
    all unmapped or not string paths comes back unchanged. *)
Theorem replaceImports_rewrites_mapped_imports (e : EmulatorBackend) (code : list ascii) :
  (configuration e = None -> replaceImports e code = Normal code)
  /\ (forall config program,
        configuration e = Some config ->
        parser_ParseProgram code = inr program ->
        importsInSourceOrder code 0 (ImportDeclarations program) = true ->
        replaceImports e code
        = Normal (rewriteImportTargets (Addresses config) code (ImportDeclarations program))
        /\ (Forall (fun d => importTarget (Addresses config) d = None)
                   (ImportDeclarations program) ->
            replaceImports e code = Normal code)).
Proof.
  split.
  - intros Hnone. unfold replaceImports. rewrite Hnone. reflexivity.
  - intros config program Hconfig Hparse Hord.
    assert (Hrun : replaceImports e code
                   = Normal (rewriteImportTargets (Addresses config) code
                               (ImportDeclarations program))).
    { unfold replaceImports. rewrite Hconfig, Hparse.
      destruct (replaceImportDeclarations_spec (Addresses config) code
                  (ImportDeclarations program) [] 0 Hord)
        as (sb & importDeclEnd & -> & Hb & Heq).
      rewrite slice_in_bounds by lia.
      rewrite Nat2Z.id, firstn_all. cbn in Heq. rewrite Heq. reflexivity. }
    split; [exact Hrun|].
    intros Hun. rewrite Hrun, rewriteImportTargets_unmapped by assumption. reflexivity.
Qed.

(** C10, as amended: with a configuration set and a source the parser
    rejects, the import-rewriting step panics with the parser's error, and
    [AddTransaction] and [DeployContract] are left by that panic, as is
    [RunScript] when all its arguments are exported and encoded; a
    [RunScript] argument that fails to export or encode is reported in the
    result's error before the source is looked at.  Without a configuration
    the rewriter returns the source whatever the parser would say. *)
Theorem replaceImports_parse_error_panics (e : EmulatorBackend) (code : list ascii) :
  (configuration e = None -> replaceImports e code = Normal code)
  /\ (forall config err,
        configuration e = Some config ->
        parser_ParseProgram code = inl err ->
        replaceImports e code = Panic (PanicError err)
        /\ (forall authorizers signers args,
              AddTransaction e code authorizers signers args = (Panic (PanicError err), e))
        /\ (forall name account args,
              DeployContract e name code account args = (Panic (PanicError err), e))
        /\ (forall args arguments,
              encodeArguments args [] = inr arguments ->
              RunScript e code args = (Panic (PanicError err), e))
        /\ (forall args argErr,
              encodeArguments args [] = inl argErr ->
              RunScript e code args
              = (Normal {| ScriptResult_Value := None;
                           ScriptResult_Error := Some argErr |}, e))).
Proof.
  split.
  - intros Hnone. unfold replaceImports. rewrite Hnone. reflexivity.
  - intros config err Hconfig Hparse.
    assert (Hpanic : replaceImports e code = Panic (PanicError err))
      by (unfold replaceImports; rewrite Hconfig, Hparse; reflexivity).
    split; [exact Hpanic|]. repeat split.
    + intros. unfold AddTransaction. rewrite Hpanic. reflexivity.
    + intros. unfold DeployContract. rewrite Hpanic. reflexivity.
    + intros args arguments Henc. unfold RunScript. rewrite Henc, Hpanic. reflexivity.
    + intros args argErr Henc. unfold RunScript. rewrite Henc. reflexivity.
Qed.

(** C7: [ExecuteNextTransaction] returns nil exactly when the ledger reports
    that the pending block has no more transactions; any other ledger error
    and any execution error of the transaction come back in the [Error]
    field of a non-nil result, and a successful execution gives a non-nil
    result whose [Error] is nil. *)
Theorem ExecuteNextTransaction_nil_iff_exhausted (e : EmulatorBackend) :
  (fst (ExecuteNextTransaction e) = None
   <-> fst (emulator_ExecuteNextTransaction (ledger (blockchain e)))
       = inl PendingBlockTransactionsExhaustedError)
  /\ (forall msg,
        fst (emulator_ExecuteNextTransaction (ledger (blockchain e)))
        = inl (ErrorMessage msg) ->
        fst (ExecuteNextTransaction e)
        = Some {| TransactionResult_Error := Some (ErrorMessage msg) |})
  /\ (forall resultError,
        fst (emulator_ExecuteNextTransaction (ledger (blockchain e)))
        = inr (Some resultError) ->
        fst (ExecuteNextTransaction e)
        = Some {| TransactionResult_Error := Some resultError |})
  /\ (fst (emulator_ExecuteNextTransaction (ledger (blockchain e))) = inr None ->
      fst (ExecuteNextTransaction e) = Some {| TransactionResult_Error := None |})
  /\ ledger (blockchain (snd (ExecuteNextTransaction e)))
     = snd (emulator_ExecuteNextTransaction (ledger (blockchain e))).
Proof.
  unfold ExecuteNextTransaction, blockchain_ExecuteNextTransaction.
  destruct (emulator_ExecuteNextTransaction (ledger (blockchain e)))
    as [[[|msg]|[resultError|]] l]; cbn; repeat split; congruence.
Qed.

End EmulatorBackendProperties.

Section PendingOffsetProperties.

Context `{FlowSDK} `{!Emulator} `{CadenceParser}.

Lemma AddAuthorizers_ProposalKey (authorizers : list Address) :
  forall tx : Transaction,
    TxProposalKey (fold_left (fun tx authorizer => AddAuthorizer authorizer tx) authorizers tx)
    = TxProposalKey tx.
Proof.
  induction authorizers as [|a rest IH]; intros tx; [reflexivity|].
  cbn [fold_left]. rewrite IH. reflexivity.
Qed.

Lemma newTransaction_SequenceNumber (e : EmulatorBackend) (code : list ascii)
    (authorizers : list Address) :
  SequenceNumber (newTransaction e code authorizers) = Some (nextSequenceNumber e).
Proof.
  unfold SequenceNumber, newTransaction. rewrite AddAuthorizers_ProposalKey. reflexivity.
Qed.

Lemma addExportedArguments_ProposalKey (args : list Value) :
  sdkKeepsProposalKey ->
  forall tx tx', addExportedArguments tx args = inr tx' ->
                 TxProposalKey tx' = TxProposalKey tx.
Proof.
  intros (Harg & _ & _). induction args as [|arg rest IH]; intros tx tx'; cbn.
  - intros [= <-]. reflexivity.
  - destruct (runtime_ExportValue arg) as [err|v]; [discriminate|].
    destruct (tx_AddArgument tx v) as [err|tx1] eqn:E1; [discriminate|].
    intros Hrest. rewrite (IH _ _ Hrest). eapply Harg, E1.
Qed.

Lemma addArguments_ProposalKey (cadenceArgs : list CadenceValue) :
  sdkKeepsProposalKey ->
  forall tx tx', addArguments tx cadenceArgs = inr tx' ->
                 TxProposalKey tx' = TxProposalKey tx.
Proof.
  intros (Harg & _ & _). induction cadenceArgs as [|arg rest IH]; intros tx tx'; cbn.
  - intros [= <-]. reflexivity.
  - destruct (tx_AddArgument tx arg) as [err|tx1] eqn:E1; [discriminate|].
    intros Hrest. rewrite (IH _ _ Hrest). eapply Harg, E1.
Qed.

Lemma signTransaction_ProposalKey (e : EmulatorBackend) (signerAccounts : list Account) :
  sdkKeepsProposalKey ->
  forall tx tx', signTransaction e tx signerAccounts = inr tx' ->
                 TxProposalKey tx' = TxProposalKey tx.
Proof.
  intros (_ & Hpay & Henv) tx tx'. unfold signTransaction.
  assert (Hloop : forall signers t t', signPayloads e t signers = inr t' ->
                                       TxProposalKey t' = TxProposalKey t).
  { induction signers as [|s rest IH]; intros t t'; cbn.
    - intros [= <-]. reflexivity.
    - match goal with |- context [tx_SignPayload ?a ?b ?c ?d] =>
        destruct (tx_SignPayload a b c d) as [err|t1] eqn:E1 end; [discriminate|].
      intros Hrest. rewrite (IH _ _ Hrest). eapply Hpay, E1. }
  destruct (signPayloads e tx (rev signerAccounts)) as [err|tx1] eqn:E1; [discriminate|].
  destruct (serviceKey_Signer _) as [err|serviceSigner]; [discriminate|].
  intros E2. rewrite (Henv _ _ _ _ _ E2). eapply Hloop, E1.
Qed.

Lemma CommitBlock_spec (e : EmulatorBackend) :
  CommitBlock e
  = (fst (emulator_CommitBlock (ledger (blockchain e))),
     {| blockchain := {| ledger := snd (emulator_CommitBlock (ledger (blockchain e)));
                         submitted := submitted (blockchain e) |};
        blockOffset := 0;
        accountKeys := accountKeys e;
        configuration := configuration e |}).
Proof.
  unfold CommitBlock, blockchain_CommitBlock. cbn.
  destruct (emulator_CommitBlock (ledger (blockchain e))). reflexivity.
Qed.

Lemma AddTransaction_spec (e e' : EmulatorBackend) code authorizers signers args out :
  sdkKeepsProposalKey ->
  AddTransaction e code authorizers signers args = (out, e') ->
  (e' = e /\ out <> Normal None)
  \/ exists tx,
       SequenceNumber tx = Some (nextSequenceNumber e)
       /\ submitted (blockchain e') = submitted (blockchain e) ++ [tx]
       /\ out = Normal (fst (emulator_AddTransaction (ledger (blockchain e)) tx))
       /\ blockOffset e'
          = match fst (emulator_AddTransaction (ledger (blockchain e)) tx) with
            | None => uint64 (blockOffset e + 1)
            | Some _ => blockOffset e
            end.
Proof.
  intros Hsdk. unfold AddTransaction.
  destruct (replaceImports e code) as [code'|v]; [|intros [= <- <-]; left; split; congruence].
  destruct (addExportedArguments _ args) as [err|tx1] eqn:E1;
    [intros [= <- <-]; left; split; congruence|].
  destruct (signTransaction e tx1 signers) as [err|tx2] eqn:E2;
    [intros [= <- <-]; left; split; congruence|].
  assert (Hseq : SequenceNumber tx2 = Some (nextSequenceNumber e)).
  { unfold SequenceNumber.
    rewrite (signTransaction_ProposalKey _ _ Hsdk _ _ E2),
      (addExportedArguments_ProposalKey _ Hsdk _ _ E1).
    apply newTransaction_SequenceNumber. }
  unfold blockchain_AddTransaction.
  destruct (emulator_AddTransaction (ledger (blockchain e)) tx2) as [[err|] l] eqn:E3;
    intros [= <- <-]; right; exists tx2; rewrite E3; repeat split; assumption.
Qed.

Lemma DeployContract_spec (e e' : EmulatorBackend) name code account args out :
  sdkKeepsProposalKey ->
  DeployContract e name code account args = (out, e') ->
  (e' = e /\ out <> Normal None)
  \/ exists tx,
       SequenceNumber tx = Some (nextSequenceNumber e)
       /\ submitted (blockchain e') = submitted (blockchain e) ++ [tx]
       /\ match fst (emulator_AddTransaction (ledger (blockchain e)) tx) with
          | Some err => out = Normal (Some err) /\ blockOffset e' = blockOffset e
          | None =>
              blockOffset e' = 0%Z
              \/ (blockOffset e' = uint64 (blockOffset e + 1) /\ out <> Normal None)
          end.
Proof.
  intros Hsdk. unfold DeployContract.
  destruct (replaceImports e code) as [code'|v]; [|intros [= <- <-]; left; split; congruence].
  destruct (exportDeployArguments 0 args [] [] []) as [err|[[cadenceArgs txArgs] addArgs]];
    [intros [= <- <-]; left; split; congruence|].
  destruct (addArguments _ cadenceArgs) as [err|tx1] eqn:E1;
    [intros [= <- <-]; left; split; congruence|].
  destruct (signTransaction e tx1 [account]) as [err|tx2] eqn:E2;
    [intros [= <- <-]; left; split; congruence|].
  assert (Hseq : SequenceNumber tx2 = Some (nextSequenceNumber e)).
  { unfold SequenceNumber.
    rewrite (signTransaction_ProposalKey _ _ Hsdk _ _ E2),
      (addArguments_ProposalKey _ Hsdk _ _ E1).
    apply newTransaction_SequenceNumber. }
  unfold blockchain_AddTransaction.
  destruct (emulator_AddTransaction (ledger (blockchain e)) tx2) as [[err|] l] eqn:E3.
  - intros [= <- <-]. right. exists tx2. rewrite E3. repeat split; assumption.
  - unfold ExecuteNextTransaction, blockchain_ExecuteNextTransaction. cbn.
    destruct (emulator_ExecuteNextTransaction l) as [[[|msg]|[resultError|]] l'];
      cbn; try rewrite CommitBlock_spec;
      intros [= <- <-]; right; exists tx2; rewrite E3; cbn;
      (repeat split; try assumption);
      solve [left; reflexivity | right; split; [reflexivity|congruence]].
Qed.

(** C4: a transaction built by [newTransaction], and hence every
    transaction that [AddTransaction] or [DeployContract] hands to the
    ledger, proposes the service key's sequence number plus the pending
    offset (in [uint64] arithmetic); the offset moves only after the ledger
    has accepted the submission; and [CommitBlock] leaves the offset at zero
    whatever the ledger's commit returns. *)
Theorem pending_offset_invariant (e : EmulatorBackend) :
  sdkKeepsProposalKey ->
  (forall code authorizers,
      SequenceNumber (newTransaction e code authorizers)
      = Some (uint64 (ServiceKey_SequenceNumber (emulator_ServiceKey (ledger (blockchain e)))
                      + blockOffset e)))
  /\ (forall code authorizers signers args out e',
        AddTransaction e code authorizers signers args = (out, e') ->
        (e' = e /\ out <> Normal None)
        \/ exists tx,
             SequenceNumber tx = Some (nextSequenceNumber e)
             /\ submitted (blockchain e') = submitted (blockchain e) ++ [tx]
             /\ out = Normal (fst (emulator_AddTransaction (ledger (blockchain e)) tx))
             /\ blockOffset e'
                = match fst (emulator_AddTransaction (ledger (blockchain e)) tx) with
                  | None => uint64 (blockOffset e + 1)
                  | Some _ => blockOffset e
                  end)
  /\ (forall name code account args out e',
        DeployContract e name code account args = (out, e') ->
        (e' = e /\ out <> Normal None)
        \/ exists tx,
             SequenceNumber tx = Some (nextSequenceNumber e)
             /\ submitted (blockchain e') = submitted (blockchain e) ++ [tx]
             /\ match fst (emulator_AddTransaction (ledger (blockchain e)) tx) with
                | Some err => out = Normal (Some err) /\ blockOffset e' = blockOffset e
                | None =>
                    blockOffset e' = 0%Z
                    \/ (blockOffset e' = uint64 (blockOffset e + 1) /\ out <> Normal None)
                end)
  /\ (fst (CommitBlock e) = fst (emulator_CommitBlock (ledger (blockchain e)))
      /\ blockOffset (snd (CommitBlock e)) = 0%Z
      /\ ledger (blockchain (snd (CommitBlock e)))
         = snd (emulator_CommitBlock (ledger (blockchain e)))).
Proof.
  intros Hsdk. split; [|split; [|split]].
  - intros. apply newTransaction_SequenceNumber.
  - intros. eapply AddTransaction_spec; eassumption.
  - intros. eapply DeployContract_spec; eassumption.
  - rewrite CommitBlock_spec. repeat split.
Qed.

(** C9, as amended: after a successful [CommitBlock], a successful
    [AddTransaction] hands the ledger one transaction, whose sequence number
    is the service key's sequence number itself (the offset is zero when the
    transaction is built), and leaves the pending offset at one. *)
Theorem CommitBlock_then_AddTransaction (e e1 e2 : EmulatorBackend)
    code authorizers signers args :
  sdkKeepsProposalKey ->
  CommitBlock e = (None, e1) ->
  AddTransaction e1 code authorizers signers args = (Normal None, e2) ->
  exists tx,
    submitted (blockchain e2) = submitted (blockchain e) ++ [tx]
    /\ SequenceNumber tx
       = Some (uint64 (ServiceKey_SequenceNumber (emulator_ServiceKey (ledger (blockchain e1)))))
    /\ blockOffset e2 = 1%Z.
Proof.
  intros Hsdk Hcommit Hadd. rewrite CommitBlock_spec in Hcommit.
  injection Hcommit as Herr <-.
  apply (AddTransaction_spec _ _ _ _ _ _ _ Hsdk) in Hadd
    as [[_ Hne]|(tx & Hseq & Hsub & Hout & Hoff)]; [congruence|].
  exists tx. cbn in *. injection Hout as Hacc. rewrite <- Hacc in Hoff.
  repeat split; try assumption.
  rewrite Hseq. unfold nextSequenceNumber, blockchain_ServiceKey. cbn. rewrite Z.add_0_r.
  reflexivity.
Qed.

End PendingOffsetProperties.

(** ** The backend on concrete inputs *)

(** The plain SDK only appends arguments and signatures. *)
Lemma plainSDK_keeps_ProposalKey : @sdkKeepsProposalKey plainTypes plainSDK.
Proof.
  repeat split.
  - intros tx v tx' [= <-]. reflexivity.
  - intros tx a i [s|] tx'; [|discriminate]. intros [= <-]. reflexivity.
  - intros tx a i s tx' [= <-]. reflexivity.
Defined.

(** The example of the specification: the import of ["./foo.cdc"], mapped
    to the address ab, is rewritten and the rest of the script is kept. *)
Example replaceImports_foo :
  @replaceImports plainTypes countingEmulator fooParser configuredBackend fooScript
  = Normal (text "import Foo from 0x00000000000000ab" ++ nl ++ text "pub fun main() {}")
  /\ @replaceImports plainTypes countingEmulator fooParser freshBackend fooScript
     = Normal fooScript.
Proof. split; vm_compute; reflexivity. Qed.

(** The theorem of C5 on the example script. *)
Lemma replaceImports_rewrites_mapped_imports_witness :
  @replaceImports plainTypes countingEmulator fooParser configuredBackend fooScript
  = Normal (rewriteImportTargets (Addresses fooConfiguration) fooScript
              (ImportDeclarations fooProgram)).
Proof.
  destruct (@replaceImports_rewrites_mapped_imports plainTypes countingEmulator
              fooParser configuredBackend fooScript) as [_ Hconfigured].
  destruct (Hconfigured fooConfiguration fooProgram) as [Hrewritten _].
  - reflexivity.
  - vm_compute. reflexivity.
  - vm_compute. reflexivity.
  - exact Hrewritten.
Defined.

(** C10, counterexample: the configuration is set and the parser rejects
    the source, yet [RunScript] does not panic: its argument cannot be
    exported, and that failure comes back in the result's error. *)
Lemma RunScript_argument_error_before_rewriting :
  configuration configuredBackend = Some fooConfiguration
  /\ @parser_ParseProgram fooParser (text "bad") = inl (ErrorMessage "unexpected token")
  /\ fst (@RunScript plainTypes countingEmulator fooParser configuredBackend
            (text "bad") [O])
     = Normal {| ScriptResult_Value := None;
                 ScriptResult_Error := Some (ErrorMessage "cannot export value") |}.
Proof. repeat split; vm_compute; reflexivity. Qed.

(** The theorem of C10 on a configured backend and a rejected source. *)
Lemma replaceImports_parse_error_panics_witness :
  @AddTransaction plainTypes plainSDK countingEmulator fooParser configuredBackend
    (text "bad") [] [] []
  = (Panic (PanicError (ErrorMessage "unexpected token")), configuredBackend)
  /\ @RunScript plainTypes countingEmulator fooParser configuredBackend (text "bad") [1%nat]
     = (Panic (PanicError (ErrorMessage "unexpected token")), configuredBackend).
Proof.
  destruct (@replaceImports_parse_error_panics plainTypes plainSDK countingEmulator
              fooParser configuredBackend (text "bad")) as [_ Hconfigured].
  destruct (Hconfigured fooConfiguration (ErrorMessage "unexpected token"))
    as (_ & Hadd & _ & Hrun & _).
  - reflexivity.
  - vm_compute. reflexivity.
  - split; [apply Hadd|]. eapply Hrun. vm_compute. reflexivity.
Defined.

(** The theorem of C7 on a backend with nothing pending and on one with
    pending transactions. *)
Lemma ExecuteNextTransaction_nil_iff_exhausted_witness :
  fst (@ExecuteNextTransaction plainTypes countingEmulator freshBackend) = None
  /\ fst (@ExecuteNextTransaction plainTypes countingEmulator busyBackend)
     = Some {| TransactionResult_Error := None |}.
Proof.
  split.
  - apply (@ExecuteNextTransaction_nil_iff_exhausted plainTypes countingEmulator
             freshBackend). reflexivity.
  - apply (@ExecuteNextTransaction_nil_iff_exhausted plainTypes countingEmulator
             busyBackend). reflexivity.
Defined.

(** The theorem of C4 on the backend with three transactions pending:
    41 + 3 = 44. *)
Lemma pending_offset_invariant_witness :
  SequenceNumber (@newTransaction plainTypes countingEmulator busyBackend
                    (text "transaction {}") [])
  = Some 44%Z
  /\ blockOffset (snd (@CommitBlock plainTypes countingEmulator busyBackend)) = 0%Z.
Proof.
  destruct (@pending_offset_invariant plainTypes plainSDK countingEmulator fooParser
              busyBackend plainSDK_keeps_ProposalKey) as (Hnew & _ & _ & _ & Hcommit & _).
  split; [rewrite Hnew; reflexivity | exact Hcommit].
Defined.

(** C9, counterexample: the service key stands at 41; after a successful
    [CommitBlock] a successful [AddTransaction] submits a transaction with
    sequence number 41, not 42. *)
Lemma CommitBlock_then_AddTransaction_proposes_base :
  fst (@CommitBlock plainTypes countingEmulator busyBackend) = None
  /\ fst (@AddTransaction plainTypes plainSDK countingEmulator fooParser
            (snd (@CommitBlock plainTypes countingEmulator busyBackend))
            (text "transaction {}") [] [] [])
     = Normal None
  /\ ServiceKey_SequenceNumber
       (emulator_ServiceKey
          (ledger (blockchain (snd (@CommitBlock plainTypes countingEmulator busyBackend)))))
     = 41%Z
  /\ (SequenceNumber
        <$> last (submitted (blockchain (snd
              (@AddTransaction plainTypes plainSDK countingEmulator fooParser
                 (snd (@CommitBlock plainTypes countingEmulator busyBackend))
                 (text "transaction {}") [] [] [])))))
     = Some (Some 41%Z).
Proof. repeat split; vm_compute; reflexivity. Qed.

(** The theorem of C9 on the same backend. *)
Lemma CommitBlock_then_AddTransaction_witness :
  exists tx : @Transaction plainTypes,
    submitted (blockchain (snd
      (@AddTransaction plainTypes plainSDK countingEmulator fooParser
         (snd (@CommitBlock plainTypes countingEmulator busyBackend))
         (text "transaction {}") [] [] [])))
    = submitted (blockchain busyBackend) ++ [tx]
    /\ SequenceNumber tx = Some 41%Z
    /\ blockOffset (snd
         (@AddTransaction plainTypes plainSDK countingEmulator fooParser
            (snd (@CommitBlock plainTypes countingEmulator busyBackend))
            (text "transaction {}") [] [] [])) = 1%Z.
Proof.
  destruct (@CommitBlock_then_AddTransaction plainTypes plainSDK countingEmulator fooParser
              busyBackend
              (snd (@CommitBlock plainTypes countingEmulator busyBackend))
              (snd (@AddTransaction plainTypes plainSDK countingEmulator fooParser
                      (snd (@CommitBlock plainTypes countingEmulator busyBackend))
                      (text "transaction {}") [] [] []))
              (text "transaction {}") [] [] [] plainSDK_keeps_ProposalKey)
    as (tx & Hsub & Hseq & Hoff).
  - vm_compute. reflexivity.
  - vm_compute. reflexivity.
  - exists tx. split; [exact Hsub|]. split; [rewrite Hseq; reflexivity | exact Hoff].
Defined.

(** * Further properties of the runner, the reports and the backend *)

(** ** Load-time checks *)

Lemma checkTestFunctions_None (decls : list FunctionDeclaration) :
  checkTestFunctions decls = None -> Forall wellFormedTestFunction decls.
Proof.
  induction decls as [|d rest IH]; cbn [checkTestFunctions]; [constructor|].
  unfold wellFormedTestFunction at 1.
  destruct (String.prefix testFunctionPrefix (Identifier d)) eqn:Hp; cbn [negb].
  - destruct (ParameterList_IsEmpty d) eqn:Hpar; cbn [negb]; [|discriminate].
    destruct (ReturnTypeAnnotation d) as [t|] eqn:Hret; [discriminate|].
    intros Hrest. constructor; [|apply IH; assumption].
    intros _. rewrite Hpar, Hret. split; reflexivity.
  - intros Hrest. constructor; [|apply IH; assumption]. intros Hp'. congruence.
Qed.

(** X1: the check of the test functions passes exactly when every
    declaration with the test prefix has no parameter and no return type;
    declarations without the prefix are not looked at. *)
Theorem checkTestFunctions_passes_iff (decls : list FunctionDeclaration) :
  checkTestFunctions decls = None <-> Forall wellFormedTestFunction decls.
Proof.
  split; [apply checkTestFunctions_None|].
  induction 1 as [|d rest Hd Hrest IH]; cbn [checkTestFunctions]; [reflexivity|].
  unfold wellFormedTestFunction in Hd.
  destruct (String.prefix testFunctionPrefix (Identifier d)); cbn [negb]; [|exact IH].
  destruct (Hd eq_refl) as [-> ->]. exact IH.
Qed.

Section LoadFailures.

Context `{CadenceRuntime} `{MathRand}.

(** X2: when the script parses and checks but declares a test function
    with parameters or with a return type, [RunTests] and [RunTest] return
    an error and no Results, and nothing of the script is invoked: neither
    [setup] nor any hook or case. *)
Theorem malformed_test_function_aborts (r : TestRunner) (script funcName : string)
    (program : Program) :
  ParseAndCheckProgram script = Normal (inr program) ->
  ~ Forall wellFormedTestFunction (FunctionDeclarations program) ->
  exists err,
    RunTests r script = (Normal ([], Some err), [])
    /\ RunTest r script funcName = (Normal (None, Some err), []).
Proof.
  intros Hparse Hbad.
  destruct (checkTestFunctions (FunctionDeclarations program)) as [err|] eqn:Hcheck;
    [|destruct (Hbad (checkTestFunctions_None _ Hcheck))].
  exists err. unfold RunTests, RunTest, parseCheckAndInterpret.
  rewrite Hparse, Hcheck. split; reflexivity.
Qed.

End LoadFailures.

(** ** More on the runs of [RunTests] *)

Lemma caseInvocations_app (t1 t2 : list Invocation) :
  caseInvocations (t1 ++ t2) = caseInvocations t1 ++ caseInvocations t2.
Proof. apply List.filter_app. Qed.

Lemma caseInvocations_hookTrace (present : bool) (name : string) (o : Outcome error) :
  String.prefix testFunctionPrefix name = false ->
  caseInvocations (hookTrace present name o) = [].
Proof.
  intros Hn. destruct present; [|reflexivity].
  unfold caseInvocations. cbn [hookTrace List.filter fst]. rewrite Hn. reflexivity.
Qed.

Section RunTestsInvocations.

Context `{CadenceRuntime} `{MathRand}.

(** Who is invoked by one pass over the test cases, and what the Results
    record of it. *)
Lemma forEachTestCase_invocations (testCases : list FunctionDeclaration) :
  Forall (fun d => String.prefix testFunctionPrefix (Identifier d) = true) testCases ->
  forall (results : Results) (inter inter' : Interpreter) ended,
    forEachTestCase testCases results inter = (ended, inter') ->
    exists delta,
      trace inter' = trace inter ++ delta
      /\ Forall (fun inv => (isEachHook (fst inv) = true
                             /\ Globals_Contains inter (fst inv) = true)
                            \/ In (fst inv) (map Identifier testCases)) delta
      /\ (forall results', ended = inr results' ->
            map resultInvocation results'
            = map resultInvocation results ++ caseInvocations delta).
Proof.
  induction 1 as [|funcDecl rest Hp Hrest IH]; intros results inter inter' ended Hrun.
  - cbn in Hrun. injection Hrun as <- <-. exists []. rewrite !app_nil_r.
    repeat split; [constructor|]. intros results' [= <-]. reflexivity.
  - cbn [forEachTestCase] in Hrun.
    assert (Hhook : forall present name (i : Interpreter) o,
              isEachHook name = true -> Globals i = Globals inter ->
              (present = true -> Globals_Contains i name = true) ->
              Forall (fun inv => (isEachHook (fst inv) = true
                                  /\ Globals_Contains inter (fst inv) = true)
                                 \/ In (fst inv) (map Identifier (funcDecl :: rest)))
                     (hookTrace present name o)).
    { intros [|] name i o Hn HG Hpres; [|constructor].
      repeat constructor; [assumption|]. cbn [fst].
      specialize (Hpres eq_refl). unfold Globals_Contains in *. rewrite <- HG. assumption. }
    destruct (runBeforeEach inter) as [o1 i1] eqn:E1.
    apply runHook_spec in E1 as (G1 & T1 & N1).
    pose proof (Hhook (hasBeforeEach inter) beforeEachFunctionName inter o1
                  eq_refl eq_refl (fun p => p)) as F1.
    destruct o1 as [[e1|]|v1];
      try (injection Hrun as <- <-; eexists; split; [eassumption|];
           split; [assumption|discriminate]).
    destruct (invokeTestFunction i1 (Identifier funcDecl)) as [o2 i2] eqn:E2.
    rewrite invokeTestFunction_eq in E2. apply inter_Invoke_spec in E2 as (G2 & T2).
    assert (F2 : Forall (fun inv => (isEachHook (fst inv) = true
                                     /\ Globals_Contains inter (fst inv) = true)
                                    \/ In (fst inv) (map Identifier (funcDecl :: rest)))
                        [(Identifier funcDecl, o2)]).
    { constructor; [|constructor]. right. left. reflexivity. }
    destruct o2 as [testErr|v2];
      [|injection Hrun as <- <-; eexists;
        split; [rewrite T2, T1, <- !app_assoc; reflexivity|];
        split; [apply Forall_app_2; assumption|discriminate]].
    destruct (runAfterEach i2) as [o3 i3] eqn:E3.
    apply runHook_spec in E3 as (G3 & T3 & N3).
    pose proof (Hhook (hasAfterEach i2) afterEachFunctionName i2 o3
                  eq_refl (eq_trans G2 G1) (fun p => p)) as F3.
    destruct o3 as [[e3|]|v3];
      try (injection Hrun as <- <-; eexists;
           split; [rewrite T3, T2, T1, <- !app_assoc; reflexivity|];
           split; [repeat (apply Forall_app_2; [assumption|]); assumption|discriminate]).
    apply IH in Hrun as (delta & T4 & F4 & R4).
    eexists. split; [rewrite T4, T3, T2, T1, <- !app_assoc; reflexivity|]. split.
    + repeat (apply Forall_app_2; [assumption|]).
      eapply Forall_impl; [exact F4|]. cbn beta. intros inv [[Hh Hg]|Hin].
      * left. split; [assumption|]. unfold Globals_Contains in *.
        rewrite <- G1, <- G2, <- G3. assumption.
      * right. right. assumption.
    + intros results' ->. rewrite (R4 _ eq_refl), map_app, !caseInvocations_app.
      rewrite !caseInvocations_hookTrace by reflexivity.
      unfold caseInvocations at 2. cbn [List.filter fst]. rewrite Hp.
      cbn. rewrite <- app_assoc. reflexivity.
Qed.

End RunTestsInvocations.

Lemma isEachHook_isLifecycleHook (name : string) :
  isEachHook name = true -> isLifecycleHook name = true.
Proof.
  unfold isEachHook, isLifecycleHook. intros Hn.
  apply orb_true_iff in Hn as [->| ->]; rewrite ?orb_true_r; reflexivity.
Qed.

Section RunTestsResults.

Context `{CadenceRuntime} `{MathRand}.

Lemma hookTrace_invokedByDesign (inter i : Interpreter) program present name o :
  isLifecycleHook name = true -> Globals i = Globals inter ->
  (present = true -> Globals_Contains i name = true) ->
  Forall (invokedByDesign inter program) (hookTrace present name o).
Proof.
  intros Hn HG Hpres. destruct present; [|constructor].
  constructor; [|constructor]. left. split; [assumption|]. cbn [fst].
  specialize (Hpres eq_refl). unfold Globals_Contains in *. rewrite <- HG. assumption.
Qed.

Lemma RunTests_steps_invocations (r : TestRunner) (program : Program)
    (inter inter' : Interpreter) (body : BodyEnd Results) :
  drawsBelowBound ->
  trace inter = [] ->
  RunTests_steps r program inter = (body, inter') ->
  Forall (invokedByDesign inter program) (trace inter')
  /\ (setupPasses (trace inter') = false -> noPanics (trace inter') = true ->
      exists e, body = Returned [] (Some e)
                /\ trace inter' = [(setupFunctionName, Normal (Some e))])
  /\ (forall results err,
        body = Returned results err ->
        setupPasses (trace inter') = true ->
        eachHooksPass (trace inter') = true ->
        map resultInvocation results = caseInvocations (trace inter')
        /\ if hasTearDown inter
           then last (trace inter') = Some (tearDownFunctionName, Normal err)
           else err = None).
Proof.
  intros Hdraw Hfresh. unfold RunTests_steps, call.
  destruct (runTestSetup inter) as [o0 i0] eqn:E0.
  apply runHook_spec in E0 as (G0 & T0 & N0). rewrite Hfresh, app_nil_l in T0.
  pose proof (hookTrace_invokedByDesign inter inter program (hasSetup inter)
                setupFunctionName o0 eq_refl eq_refl (fun p => p)) as F0.
  destruct o0 as [[e0|]|v0].
  - intros [= <- <-]. rewrite T0. split; [assumption|].
    destruct (hasSetup inter); [|specialize (N0 eq_refl); discriminate].
    split; [|cbn; discriminate].
    intros _ _. exists e0. split; reflexivity.
  - destruct (orderTestCases_Permutation r (discoverTestCases program) Hdraw)
      as (ordered & Hord & Hperm).
    rewrite Hord.
    assert (Hpre : Forall (fun d => String.prefix testFunctionPrefix (Identifier d) = true) ordered).
    { rewrite Hperm. apply discoverTestCases_prefixed. }
    destruct (forEachTestCase ordered [] i0) as [ended i1] eqn:E1.
    pose proof (forEachTestCase_spec _ Hpre _ _ _ _ E1)
      as (G1 & delta & T1 & C1 & S1 & Hend).
    pose proof (forEachTestCase_invocations _ Hpre _ _ _ _ E1) as (delta' & T1' & F1 & R1).
    assert (delta' = delta) as -> by (rewrite T1 in T1'; eapply app_inv_head; eauto).
    assert (F1' : Forall (invokedByDesign inter program) delta).
    { eapply Forall_impl; [exact F1|]. cbn beta. intros inv [[Hh Hg]|Hin].
      - left. split; [apply isEachHook_isLifecycleHook; assumption|].
        unfold Globals_Contains in *. rewrite <- G0. assumption.
      - right. rewrite <- Hperm. assumption. }
    pose proof (hookTrace_setup_succeeded (hasSetup inter) setupFunctionName
                  (Normal None) eq_refl) as HS0.
    destruct ended as [[rs err|v rs err]|results].
    + intros [= <- <-]. destruct Hend as (Hnp & -> & Hfail & _).
      rewrite T1, T0. split; [apply Forall_app_2; assumption|].
      rewrite setupPasses_app, eachHooksPass_app, HS0, S1, Hfail, andb_false_r.
      split; [cbn; discriminate|]. intros ? ? _ _ Hx. cbn in Hx. discriminate.
    + intros [= <- <-]. destruct Hend as (Hnp & _).
      rewrite T1, T0. split; [apply Forall_app_2; assumption|].
      rewrite setupPasses_app, noPanics_app, HS0, S1, Hnp, andb_false_r.
      split; [cbn; discriminate|]. intros ? ? Hx. discriminate.
    + destruct Hend as (Hnp & Hpass & Hexec & Hnames).
      destruct (runTestTearDown i1) as [o2 i2] eqn:E2.
      apply runHook_spec in E2 as (G2 & T2 & N2).
      assert (HT : hasTearDown i1 = hasTearDown inter).
      { unfold hasTearDown, Globals_Contains. rewrite G1, G0. reflexivity. }
      pose proof (hookTrace_invokedByDesign inter i1 program (hasTearDown i1)
                    tearDownFunctionName o2 eq_refl (eq_trans G1 G0) (fun p => p)) as F2.
      rewrite HT in T2, N2, F2.
      assert (Hall : Forall (invokedByDesign inter program) (trace i2)).
      { rewrite T2, T1, T0. repeat (apply Forall_app_2; [|assumption]). assumption. }
      assert (Hset : setupPasses (trace i2) = true).
      { rewrite T2, T1, T0, !setupPasses_app, HS0, S1.
        rewrite hookTrace_not_setup by reflexivity. reflexivity. }
      destruct o2 as [err2|v2]; intros [= <- <-].
      * split; [assumption|]. split; [congruence|].
        intros results' err' [= <- <-] _ _. split.
        -- rewrite T2, T1, T0, !caseInvocations_app, (R1 _ eq_refl).
           rewrite !caseInvocations_hookTrace by reflexivity.
           rewrite app_nil_r. reflexivity.
        -- destruct (hasTearDown inter).
           ++ rewrite T2. apply last_snoc.
           ++ specialize (N2 eq_refl). congruence.
      * split; [assumption|]. split; [congruence|].
        intros ? ? Hx. discriminate.
  - intros [= <- <-]. rewrite T0. split; [assumption|].
    destruct (hasSetup inter); [|specialize (N0 eq_refl); discriminate].
    split; [intros _; cbn; discriminate|]. intros ? ? Hx. discriminate.
Qed.

(** X3: when [setup] fails, [RunTests] returns its error with no
    Results, and [setup] is the only function of the script that was
    invoked: no hook, no case, no [tearDown]. *)
Theorem RunTests_setup_failure_aborts (r : TestRunner) (script : string) program
    (inter : Interpreter) :
  drawsBelowBound ->
  parseCheckAndInterpret script = Normal (inr (program, inter)) ->
  noPanics (snd (RunTests r script)) = true ->
  setupPasses (snd (RunTests r script)) = false ->
  exists e, RunTests r script = (Normal ([], Some e), [(setupFunctionName, Normal (Some e))]).
Proof.
  intros Hdraw Hparse. unfold RunTests. rewrite Hparse.
  destruct (RunTests_steps r program inter) as [body inter'] eqn:Hsteps.
  apply RunTests_steps_invocations in Hsteps as (_ & Hsetup & _);
    [|assumption|eapply parseCheckAndInterpret_fresh; eassumption].
  cbn [fst snd]. intros Hnp Hfail. destruct (Hsetup Hfail Hnp) as (e & -> & ->).
  exists e. reflexivity.
Qed.

(** X4: whatever happens during a run of [RunTests], the only functions of
    the script it invokes are lifecycle hooks that the script defines and
    test cases discovered in the program; a function without the test
    prefix is never run as a case. *)
Theorem RunTests_invokes_only_hooks_and_cases (r : TestRunner) (script : string)
    program (inter : Interpreter) :
  drawsBelowBound ->
  parseCheckAndInterpret script = Normal (inr (program, inter)) ->
  Forall (fun inv =>
            (isLifecycleHook (fst inv) = true /\ Globals_Contains inter (fst inv) = true)
            \/ (String.prefix testFunctionPrefix (fst inv) = true
                /\ In (fst inv) (map Identifier (FunctionDeclarations program))))
         (snd (RunTests r script)).
Proof.
  intros Hdraw Hparse. unfold RunTests. rewrite Hparse.
  destruct (RunTests_steps r program inter) as [body inter'] eqn:Hsteps.
  apply RunTests_steps_invocations in Hsteps as (Hall & _);
    [|assumption|eapply parseCheckAndInterpret_fresh; eassumption].
  cbn [snd]. eapply Forall_impl; [exact Hall|]. cbn beta.
  intros inv [Hhook|Hin]; [left; assumption|right].
  apply in_map_iff in Hin as (d & <- & Hd). unfold discoverTestCases in Hd.
  apply List.filter_In in Hd as [Hd Hp]. split; [assumption|]. apply in_map. assumption.
Qed.

(** X5: in a run of [RunTests] that completes (no fault, [setup] and every
    [beforeEach] and [afterEach] succeed), the Results are, one for one and
    in order, the invocations of the test cases with the errors they
    returned: every discovered case has exactly one Result, and a case has a
    nil error exactly when its invocation returned nil. *)
Theorem RunTests_results_record_invocations (r : TestRunner) (script : string)
    program (inter : Interpreter) :
  drawsBelowBound ->
  parseCheckAndInterpret script = Normal (inr (program, inter)) ->
  noPanics (snd (RunTests r script)) = true ->
  setupPasses (snd (RunTests r script)) = true ->
  eachHooksPass (snd (RunTests r script)) = true ->
  exists results err,
    fst (RunTests r script) = Normal (results, err)
    /\ map resultInvocation results = caseInvocations (snd (RunTests r script))
    /\ map TestName results ≡ₚ map Identifier (discoverTestCases program).
Proof.
  intros Hdraw Hparse. unfold RunTests. rewrite Hparse.
  destruct (RunTests_steps r program inter) as [body inter'] eqn:Hsteps.
  pose proof Hsteps as Hsteps'.
  apply RunTests_steps_spec in Hsteps';
    [|assumption|eapply parseCheckAndInterpret_fresh; eassumption].
  apply RunTests_steps_invocations in Hsteps as (_ & _ & Hres);
    [|assumption|eapply parseCheckAndInterpret_fresh; eassumption].
  cbn [fst snd]. rewrite deferredRecoverPanics_eq. intros Hnp Hsetup Hpass.
  destruct body as [results err|v results err].
  - exists results, err. split; [reflexivity|].
    split; [apply (Hres _ _ eq_refl Hsetup Hpass)|].
    destruct Hsteps' as [_ Hsteps']. rewrite Hsetup, Hpass in Hsteps'.
    destruct Hsteps' as (ordered & _ & Hperm & _ & _ & Hnames).
    rewrite Hnames, Hperm. reflexivity.
  - destruct Hsteps' as [Hf _]. congruence.
Qed.

(** X6: in a run of [RunTests] that completes, the error returned beside
    the Results is the error of [tearDown]: whatever [tearDown] returned when
    the script defines it ([tearDown] being the last function invoked), and
    nil when it does not; failing cases do not show in it. *)
Theorem RunTests_error_is_tearDown_error (r : TestRunner) (script : string)
    program (inter : Interpreter) :
  drawsBelowBound ->
  parseCheckAndInterpret script = Normal (inr (program, inter)) ->
  noPanics (snd (RunTests r script)) = true ->
  setupPasses (snd (RunTests r script)) = true ->
  eachHooksPass (snd (RunTests r script)) = true ->
  exists results err,
    fst (RunTests r script) = Normal (results, err)
    /\ if hasTearDown inter
       then last (snd (RunTests r script)) = Some (tearDownFunctionName, Normal err)
       else err = None.
Proof.
  intros Hdraw Hparse. unfold RunTests. rewrite Hparse.
  destruct (RunTests_steps r program inter) as [body inter'] eqn:Hsteps.
  pose proof Hsteps as Hsteps'.
  apply RunTests_steps_spec in Hsteps';
    [|assumption|eapply parseCheckAndInterpret_fresh; eassumption].
  apply RunTests_steps_invocations in Hsteps as (_ & _ & Hres);
    [|assumption|eapply parseCheckAndInterpret_fresh; eassumption].
  cbn [fst snd]. rewrite deferredRecoverPanics_eq. intros Hnp Hsetup Hpass.
  destruct body as [results err|v results err].
  - exists results, err. split; [reflexivity|]. apply (Hres _ _ eq_refl Hsetup Hpass).
  - destruct Hsteps' as [Hf _]. congruence.
Qed.

End RunTestsResults.

(** ** The runs of [RunTest] *)

Lemma not_hook_entry (name : string) (o : Outcome error) :
  isLifecycleHook name = false ->
  countInvocations tearDownFunctionName [(name, o)] = O
  /\ eachHooksPass [(name, o)] = true
  /\ setupPasses [(name, o)] = true.
Proof.
  unfold isLifecycleHook. intros Hn.
  apply orb_false_iff in Hn as [Hn Ha]. apply orb_false_iff in Hn as [Hn Hb].
  apply orb_false_iff in Hn as [Hs Ht].
  unfold countInvocations, eachHooksPass, setupPasses, isEachHook.
  cbn [List.filter forallb fst snd]. rewrite Hs, Ht, Ha, Hb. repeat split; reflexivity.
Qed.

Lemma hookTrace_count_other (present : bool) (hook name : string) (o : Outcome error) :
  String.eqb hook name = false ->
  countInvocations name (hookTrace present hook o) = O.
Proof.
  intros Hn. destruct present; [|reflexivity].
  unfold countInvocations. cbn [hookTrace List.filter fst]. rewrite Hn. reflexivity.
Qed.

Section RunTestProperties.

Context `{CadenceRuntime}.

(** Everything [RunTest] does once the script is interpreted, read off the
    trace it leaves. *)
Lemma RunTest_steps_spec (inter inter' : Interpreter) (funcName : string)
    (body : BodyEnd (option Result)) :
  trace inter = [] ->
  isLifecycleHook funcName = false ->
  RunTest_steps inter funcName = (body, inter') ->
  match body with
  | Panicking v _ _ => noPanics (trace inter') = false
  | Returned result err =>
      noPanics (trace inter') = true
      /\ if setupPasses (trace inter') then
           if eachHooksPass (trace inter') then
             exists testResult,
               result = Some {| TestName := funcName; Error := testResult |}
               /\ trace inter'
                  = hookTrace (hasSetup inter) setupFunctionName (Normal None)
                    ++ hookTrace (hasBeforeEach inter) beforeEachFunctionName (Normal None)
                    ++ [(funcName, Normal testResult)]
                    ++ hookTrace (hasAfterEach inter) afterEachFunctionName (Normal None)
                    ++ hookTrace (hasTearDown inter) tearDownFunctionName (Normal err)
               /\ (hasTearDown inter = false -> err = None)
           else
             result = None
             /\ countInvocations tearDownFunctionName (trace inter') = O
             /\ exists hook e,
                  isEachHook hook = true
                  /\ last (trace inter') = Some (hook, Normal (Some e))
                  /\ err = Some e
                  /\ (hook = beforeEachFunctionName ->
                      countInvocations funcName (trace inter') = O)
         else
           result = None
           /\ exists e, err = Some e
                        /\ trace inter' = [(setupFunctionName, Normal (Some e))]
  end.
Proof.
  intros Hfresh Hname. unfold RunTest_steps, call.
  pose proof Hname as Hname'. unfold isLifecycleHook in Hname'.
  apply orb_false_iff in Hname' as [Hname' Hna]. apply orb_false_iff in Hname' as [Hname' Hnb].
  apply orb_false_iff in Hname' as [Hns Hnt].
  assert (Hsym : forall hook, String.eqb funcName hook = false -> String.eqb hook funcName = false)
    by (intros hook Hh; rewrite String.eqb_sym; exact Hh).
  destruct (runTestSetup inter) as [o0 i0] eqn:E0.
  apply runHook_spec in E0 as (G0 & T0 & N0). rewrite Hfresh, app_nil_l in T0.
  pose proof (hookTrace_setup_succeeded (hasSetup inter) setupFunctionName
                (Normal None) eq_refl) as HS0.
  destruct o0 as [[e0|]|v0].
  - intros [= <- <-]. rewrite T0.
    destruct (hasSetup inter); [|specialize (N0 eq_refl); discriminate].
    cbn. repeat split. exists e0. split; reflexivity.
  - destruct (runBeforeEach i0) as [o1 i1] eqn:E1.
    apply runHook_spec in E1 as (G1 & T1 & N1).
    assert (HB : hasBeforeEach i0 = hasBeforeEach inter)
      by (unfold hasBeforeEach, Globals_Contains; rewrite G0; reflexivity).
    rewrite HB in T1, N1.
    destruct o1 as [[e1|]|v1].
    + intros [= <- <-]. rewrite T1, T0.
      destruct (hasBeforeEach inter); [|specialize (N1 eq_refl); discriminate].
      rewrite noPanics_app, setupPasses_app, eachHooksPass_app, !countInvocations_app,
        hookTrace_returned, HS0.
      rewrite !hookTrace_count by reflexivity.
      rewrite (hookTrace_count_other _ setupFunctionName funcName) by (apply Hsym; assumption).
      cbn [hookTrace]. unfold countInvocations. cbn [List.filter fst].
      rewrite (Hsym _ Hnb). cbn.
      rewrite andb_false_r. repeat split.
      exists beforeEachFunctionName, e1. repeat split. apply last_snoc.
    + destruct (inter_Invoke i1 funcName) as [o2 i2] eqn:E2.
      apply inter_Invoke_spec in E2 as (G2 & T2).
      destruct (not_hook_entry funcName o2 Hname) as (C2 & P2 & S2).
      destruct o2 as [testResult|v2].
      * destruct (runAfterEach i2) as [o3 i3] eqn:E3.
        apply runHook_spec in E3 as (G3 & T3 & N3).
        assert (HA : hasAfterEach i2 = hasAfterEach inter)
          by (unfold hasAfterEach, Globals_Contains; rewrite G2, G1, G0; reflexivity).
        rewrite HA in T3, N3.
        destruct o3 as [[e3|]|v3].
        -- intros [= <- <-]. rewrite T3, T2, T1, T0.
           destruct (hasAfterEach inter); [|specialize (N3 eq_refl); discriminate].
           rewrite !noPanics_app, !setupPasses_app, !eachHooksPass_app,
             !countInvocations_app, !hookTrace_returned, HS0, S2, P2, C2, !hookTrace_passes.
           rewrite !hookTrace_count, !hookTrace_not_setup by reflexivity.
           cbn [hookTrace]. cbn. repeat split.
           exists afterEachFunctionName, e3. repeat split; [|discriminate].
           apply last_snoc.
        -- destruct (runTestTearDown i3) as [o4 i4] eqn:E4.
           apply runHook_spec in E4 as (G4 & T4 & N4).
           assert (HT : hasTearDown i3 = hasTearDown inter)
             by (unfold hasTearDown, Globals_Contains; rewrite G3, G2, G1, G0; reflexivity).
           rewrite HT in T4, N4.
           destruct o4 as [err|v4]; intros [= <- <-].
           ++ rewrite T4, T3, T2, T1, T0.
              rewrite !noPanics_app, !setupPasses_app, !eachHooksPass_app,
                !hookTrace_returned, HS0, S2, P2, !hookTrace_passes.
              rewrite !hookTrace_not_setup, !hookTrace_not_each by reflexivity.
              cbn. split; [reflexivity|]. exists testResult. split; [reflexivity|].
              split; [rewrite <- !app_assoc; reflexivity|].
              intros Hno. rewrite Hno in N4. specialize (N4 eq_refl). congruence.
           ++ rewrite T4, !noPanics_app.
              destruct (hasTearDown inter); [|specialize (N4 eq_refl); discriminate].
              cbn. apply andb_false_r.
        -- intros [= <- <-]. rewrite T3, !noPanics_app.
           destruct (hasAfterEach inter); [|specialize (N3 eq_refl); discriminate].
           cbn. apply andb_false_r.
      * intros [= <- <-]. rewrite T2, !noPanics_app. cbn. apply andb_false_r.
    + intros [= <- <-]. rewrite T1, !noPanics_app.
      destruct (hasBeforeEach inter); [|specialize (N1 eq_refl); discriminate].
      cbn. apply andb_false_r.
  - intros [= <- <-]. rewrite T0.
    destruct (hasSetup inter); [|specialize (N0 eq_refl); discriminate]. reflexivity.
Qed.

End RunTestProperties.

Section RunTestRuns.

Context `{CadenceRuntime}.

(** X7: a run of [RunTest] on a case that is not itself a hook, without
    fault and with [setup], [beforeEach] and [afterEach] succeeding, invokes
    in this order [setup], [beforeEach], the case, [afterEach] and
    [tearDown], each hook only if the script defines it, and nothing else;
    [afterEach] and [tearDown] run whether or not the case returned an
    error; the Result carries the error of the case, and the error returned
    beside it is that of [tearDown]. *)
Theorem RunTest_lifecycle (r : TestRunner) (script funcName : string) program
    (inter : Interpreter) :
  parseCheckAndInterpret script = Normal (inr (program, inter)) ->
  isLifecycleHook funcName = false ->
  noPanics (snd (RunTest r script funcName)) = true ->
  setupPasses (snd (RunTest r script funcName)) = true ->
  eachHooksPass (snd (RunTest r script funcName)) = true ->
  exists testResult err,
    RunTest r script funcName
    = (Normal (Some {| TestName := funcName; Error := testResult |}, err),
       hookTrace (hasSetup inter) setupFunctionName (Normal None)
       ++ hookTrace (hasBeforeEach inter) beforeEachFunctionName (Normal None)
       ++ [(funcName, Normal testResult)]
       ++ hookTrace (hasAfterEach inter) afterEachFunctionName (Normal None)
       ++ hookTrace (hasTearDown inter) tearDownFunctionName (Normal err))
    /\ (hasTearDown inter = false -> err = None).
Proof.
  intros Hparse Hname. unfold RunTest. rewrite Hparse.
  destruct (RunTest_steps inter funcName) as [body inter'] eqn:Hsteps.
  apply RunTest_steps_spec in Hsteps;
    [|eapply parseCheckAndInterpret_fresh; eassumption|assumption].
  cbn [fst snd]. rewrite deferredRecoverPanics_eq. intros Hnp Hsetup Hpass.
  destruct body as [result err|v result err]; [|congruence].
  destruct Hsteps as [_ Hsteps]. rewrite Hsetup, Hpass in Hsteps.
  destruct Hsteps as (testResult & -> & Htr & Herr).
  exists testResult, err. rewrite <- Htr. split; [reflexivity|assumption].
Qed.

(** X8: when [setup], [beforeEach] or [afterEach] fails in a run of
    [RunTest] (on a case that is not itself a hook, without fault), the
    failing hook is the last function invoked; the call returns its error
    and no Result, even if the case had already run; [tearDown] is not
    invoked; and the case is not invoked when the failure is that of [setup]
    or [beforeEach]. *)
Theorem RunTest_hook_failure (r : TestRunner) (script funcName : string) program
    (inter : Interpreter) :
  parseCheckAndInterpret script = Normal (inr (program, inter)) ->
  isLifecycleHook funcName = false ->
  noPanics (snd (RunTest r script funcName)) = true ->
  setupPasses (snd (RunTest r script funcName))
  && eachHooksPass (snd (RunTest r script funcName)) = false ->
  exists hook e,
    (hook = setupFunctionName \/ hook = beforeEachFunctionName
     \/ hook = afterEachFunctionName)
    /\ fst (RunTest r script funcName) = Normal (None, Some e)
    /\ last (snd (RunTest r script funcName)) = Some (hook, Normal (Some e))
    /\ countInvocations tearDownFunctionName (snd (RunTest r script funcName)) = O
    /\ (hook <> afterEachFunctionName ->
        countInvocations funcName (snd (RunTest r script funcName)) = O).
Proof.
  intros Hparse Hname. unfold RunTest. rewrite Hparse.
  destruct (RunTest_steps inter funcName) as [body inter'] eqn:Hsteps.
  apply RunTest_steps_spec in Hsteps;
    [|eapply parseCheckAndInterpret_fresh; eassumption|assumption].
  cbn [fst snd]. rewrite deferredRecoverPanics_eq. intros Hnp Hfail.
  destruct body as [result err|v result err]; [|congruence].
  destruct Hsteps as [_ Hsteps].
  destruct (setupPasses (trace inter')) eqn:Hsetup.
  - cbn [andb] in Hfail. rewrite Hfail in Hsteps.
    destruct Hsteps as (-> & Hcount & hook & e & Hh & Hl & -> & Hcase).
    exists hook, e. repeat split; try assumption.
    + right. unfold isEachHook in Hh. apply orb_true_iff in Hh as [Hh|Hh];
        apply String.eqb_eq in Hh; [left|right]; assumption.
    + intros Hne. apply Hcase. unfold isEachHook in Hh.
      apply orb_true_iff in Hh as [Hh|Hh]; apply String.eqb_eq in Hh; congruence.
  - destruct Hsteps as (-> & e & -> & Htr). rewrite Htr.
    exists setupFunctionName, e. repeat split; [left; reflexivity|].
    intros _. unfold countInvocations. cbn [List.filter fst].
    unfold isLifecycleHook in Hname.
    apply orb_false_iff in Hname as [Hname _]. apply orb_false_iff in Hname as [Hname _].
    apply orb_false_iff in Hname as [Hs _].
    rewrite String.eqb_sym, Hs. reflexivity.
Qed.

End RunTestRuns.

(** ** The printed results *)

Lemma strings_ReplaceAll_byte (s : list ascii) (old : ascii) (new : list ascii) :
  strings_ReplaceAll s [old] new
  = flat_map (fun c => if Ascii.eqb old c then new else [c]) s.
Proof.
  unfold strings_ReplaceAll. induction s as [|c rest IH]; [reflexivity|].
  cbn [strings_Replace_from hasPrefix flat_map length Nat.sub fmap option_fmap option_map].
  rewrite andb_true_r. destruct (Ascii.eqb old c); rewrite IH; reflexivity.
Qed.

(** Indenting the lines of a text loses nothing of it. *)
Lemma indent_injective (s1 s2 : list ascii) :
  strings_ReplaceAll s1 nl (nl ++ tab ++ tab ++ tab)
  = strings_ReplaceAll s2 nl (nl ++ tab ++ tab ++ tab) ->
  s1 = s2.
Proof.
  unfold nl. rewrite !strings_ReplaceAll_byte.
  revert s2. induction s1 as [|c1 r1 IH]; intros [|c2 r2]; cbn [flat_map].
  - reflexivity.
  - destruct (Ascii.eqb "010" c2); discriminate.
  - destruct (Ascii.eqb "010" c1); discriminate.
  - destruct (Ascii.eqb_spec "010"%char c1) as [<-|H1];
      destruct (Ascii.eqb_spec "010"%char c2) as [<-|H2]; cbn.
    + intros [= Heq]. f_equal. apply IH. assumption.
    + intros [= Hc _]. destruct (H2 Hc).
    + intros [= Hc _]. destruct (H1 (eq_sym Hc)).
    + intros [= -> Heq]. f_equal. apply IH. assumption.
Qed.

Section PrintingProperties.

Context `{Printing}.

(** X9: for a given test name, [PrettyPrintResult] prints different
    outcomes differently: a passing result is never printed like a failing
    one, and two failures print alike only if their error messages are the
    same, the indentation of the lines losing nothing of the message. *)
Theorem PrettyPrintResult_injective (funcName : string) (err1 err2 : error) :
  PrettyPrintResult funcName err1 = PrettyPrintResult funcName err2 ->
  GoError_Error <$> err1 = GoError_Error <$> err2.
Proof.
  unfold PrettyPrintResult. destruct err1 as [e1|], err2 as [e2|]; cbn.
  - intros [= Heq]. repeat apply app_inv_head in Heq. injection Heq as Heq.
    apply indent_injective in Heq. rewrite Heq. reflexivity.
  - discriminate.
  - discriminate.
  - reflexivity.
Qed.

(** X10: the report of [PrettyPrintResults] is its heading line followed
    by one entry per Result, in the order of the Results, each entry ended
    by a newline; so the report of a longer run extends that of a shorter
    one. *)
Theorem PrettyPrintResults_entries (results : Results) (scriptPath : string) :
  PrettyPrintResults results scriptPath
  = (text "Test results: " ++ fmt_q scriptPath ++ nl)
    ++ concat (map (fun result =>
                      PrettyPrintResult (TestName result) (Error result) ++ nl)
                   results).
Proof.
  unfold PrettyPrintResults.
  generalize (text "Test results: " ++ fmt_q scriptPath ++ nl).
  induction results as [|result rest IH]; intros sb; cbn [fold_left map concat].
  - rewrite app_nil_r. reflexivity.
  - rewrite IH, <- !app_assoc. reflexivity.
Qed.

End PrintingProperties.

(** ** The log collector *)

Lemma strings_Replace_from_done (old new : list ascii) (s : list ascii) (skip : nat) :
  strings_Replace_from old new (Some O) skip s = drop skip s.
Proof.
  revert skip. induction s as [|c rest IH]; intros [|skip]; cbn; try reflexivity.
  - rewrite IH. reflexivity.
  - apply IH.
Qed.

Lemma strings_Replace_from_skip (old new : list ascii) (limit : option nat)
    (passed rest : list ascii) :
  strings_Replace_from old new limit (length passed) (passed ++ rest)
  = strings_Replace_from old new limit 0 rest.
Proof.
  induction passed as [|c passed IH]; [reflexivity|]. exact IH.
Qed.

Lemma hasPrefix_app (old rest : list ascii) : hasPrefix old (old ++ rest) = true.
Proof.
  induction old as [|p old IH]; [reflexivity|]. cbn. rewrite Ascii.eqb_refl. exact IH.
Qed.

Lemma hasPrefix_true (old s : list ascii) :
  hasPrefix old s = true -> exists rest, s = old ++ rest.
Proof.
  revert s. induction old as [|p old IH]; intros s; [exists s; reflexivity|].
  destruct s as [|c s]; [discriminate|]. cbn [hasPrefix].
  intros Hp. apply andb_true_iff in Hp as [Hc Hrest].
  apply Ascii.eqb_eq in Hc as ->. destruct (IH _ Hrest) as (rest & ->).
  exists rest. reflexivity.
Qed.

(** The first instance of [old] is the one replaced. *)
Lemma strings_Replace_first (pre old new post : list ascii) (n : nat) :
  old <> [] ->
  (forall a b, pre ++ old ++ post = a ++ old ++ b -> length pre <= length a) ->
  strings_Replace (pre ++ old ++ post) old new (S n)
  = pre ++ new ++ strings_Replace post old new n.
Proof.
  intros Hold. unfold strings_Replace.
  destruct old as [|p old']; [congruence|]. clear Hold.
  induction pre as [|c pre IH]; intros Hfirst.
  - pose proof (hasPrefix_app (p :: old') post) as Hp.
    cbn [app] in Hp |- *. cbn [strings_Replace_from]. rewrite Hp.
    cbn [fmap option_fmap option_map Nat.pred length Nat.sub]. f_equal.
    rewrite Nat.sub_0_r. apply strings_Replace_from_skip.
  - rewrite <- app_comm_cons. cbn [strings_Replace_from].
    destruct (hasPrefix (p :: old') (c :: pre ++ (p :: old') ++ post)) eqn:Hp.
    + apply hasPrefix_true in Hp as (rest & Hrest).
      specialize (Hfirst [] rest). cbn [app length] in Hfirst.
      specialize (Hfirst Hrest). lia.
    + refine (f_equal (cons c) _). apply IH. intros a b Hab.
      assert (Hlen : length (c :: pre) <= length (c :: a))
        by (apply (Hfirst (c :: a) b); rewrite <- !app_comm_cons; f_equal; exact Hab).
      cbn [length] in Hlen. lia.
Qed.

Lemma strings_Replace_from_absent (old new : list ascii) (limit : option nat)
    (s : list ascii) :
  old <> [] ->
  (forall a b, s <> a ++ old ++ b) ->
  strings_Replace_from old new limit 0 s = s.
Proof.
  intros Hold. induction s as [|c rest IH]; intros Habsent; [reflexivity|].
  cbn [strings_Replace_from].
  assert (Hp : hasPrefix old (c :: rest) = false).
  { destruct (hasPrefix old (c :: rest)) eqn:Hp; [|reflexivity].
    apply hasPrefix_true in Hp as (post & Hpost). destruct (Habsent [] post Hpost). }
  rewrite Hp, IH.
  - destruct limit as [[|k]|]; reflexivity.
  - intros a b Hab. apply (Habsent (c :: a) b). rewrite Hab. reflexivity.
Qed.

(** What is left by a replacement with the empty text holds no byte that
    the text did not hold. *)
Lemma strings_Replace_from_removes (old : list ascii) (limit : option nat) (skip : nat)
    (s : list ascii) (c : ascii) :
  ~ In c s -> ~ In c (strings_Replace_from old [] limit skip s).
Proof.
  revert limit skip. induction s as [|x rest IH]; intros limit skip Hs; [exact Hs|].
  assert (Hrest : ~ In c rest) by (intros Hin; apply Hs; right; assumption).
  assert (Hx : x <> c) by (intros ->; apply Hs; left; reflexivity).
  cbn [strings_Replace_from]. destruct skip as [|skip]; [|apply IH; assumption].
  assert (Hkeep : forall l, ~ In c (x :: strings_Replace_from old [] l 0 rest)).
  { intros l [Heq|Hin]; [congruence|]. eapply IH; eassumption. }
  destruct limit as [[|k]|]; try apply Hkeep;
    (destruct (hasPrefix old (x :: rest)); [cbn [app]; apply IH; assumption|apply Hkeep]).
Qed.

Lemma quotedLog_scan_unquoted (s : list ascii) :
  ~ In doubleQuote s -> quotedLog_scan None s = None.
Proof.
  induction s as [|c rest IH]; intros Hs; [reflexivity|].
  cbn [quotedLog_scan]. destruct (Ascii.eqb_spec c doubleQuote) as [->|Hne].
  - exfalso. apply Hs. left. reflexivity.
  - apply IH. intros Hin. apply Hs. right. assumption.
Qed.

Lemma quotedLog_scan_before (pre rest : list ascii) :
  ~ In doubleQuote pre -> quotedLog_scan None (pre ++ rest) = quotedLog_scan None rest.
Proof.
  induction pre as [|c pre IH]; intros Hpre; [reflexivity|].
  cbn [app quotedLog_scan]. destruct (Ascii.eqb_spec c doubleQuote) as [->|Hne].
  - exfalso. apply Hpre. left. reflexivity.
  - apply IH. intros Hin. apply Hpre. right. assumption.
Qed.

Lemma quotedLog_scan_closed (read group post : list ascii) :
  ~ In doubleQuote post ->
  quotedLog_scan (Some (read, Some group)) post = Some group.
Proof.
  revert read. induction post as [|c post IH]; intros read Hpost; [reflexivity|].
  cbn [quotedLog_scan]. destruct (Ascii.eqb c newline); [reflexivity|].
  destruct (Ascii.eqb_spec c doubleQuote) as [->|Hne].
  - exfalso. apply Hpost. left. reflexivity.
  - apply IH. intros Hin. apply Hpost. right. assumption.
Qed.

Lemma quotedLog_scan_group (body post : list ascii) :
  ~ In newline body -> ~ In doubleQuote post ->
  forall read closed,
    quotedLog_scan (Some (read, closed)) (body ++ doubleQuote :: post)
    = Some (read ++ body).
Proof.
  intros Hbody Hpost. induction body as [|c body IH]; intros read closed.
  - cbn [app quotedLog_scan]. change (Ascii.eqb doubleQuote newline) with false.
    rewrite Ascii.eqb_refl, app_nil_r. apply quotedLog_scan_closed. assumption.
  - assert (Hc : c <> newline) by (intros ->; apply Hbody; left; reflexivity).
    assert (Hrest : ~ In newline body) by (intros Hin; apply Hbody; right; assumption).
    cbn [app quotedLog_scan]. destruct (Ascii.eqb_spec c newline) as [->|_]; [congruence|].
    destruct (Ascii.eqb c doubleQuote); rewrite (IH Hrest), <- app_assoc; reflexivity.
Qed.

(** The quoted part of a line: what lies between the first quote and the
    last one, when no newline comes in between. *)
Lemma quotedLog_FindStringSubmatch_quoted (pre body post : list ascii) :
  ~ In doubleQuote pre -> ~ In newline body -> ~ In doubleQuote post ->
  quotedLog_FindStringSubmatch (pre ++ doubleQuote :: body ++ doubleQuote :: post)
  = Some body.
Proof.
  intros Hpre Hbody Hpost. unfold quotedLog_FindStringSubmatch.
  rewrite quotedLog_scan_before by assumption.
  cbn [quotedLog_scan]. rewrite Ascii.eqb_refl.
  apply (quotedLog_scan_group body post Hbody Hpost []).
Qed.

(** X11: a message logged at a level other than [NoLevel] that holds a
    quoted string behind its first [LOG:] marker (the string running from
    the first double quote to the last one, with no newline inside) is
    collected as the content of the quotes alone: the marker, the quotes and
    whatever surrounds them are dropped. *)
Theorem logCollectionHook_Run_quoted (Logs : list string) (level : Level) (msg : string)
    (pre mid body post : list ascii) :
  level <> NoLevel ->
  text msg = pre ++ text "LOG:" ++ mid ++ doubleQuote :: body ++ doubleQuote :: post ->
  (forall a b, text msg = a ++ text "LOG:" ++ b -> length pre <= length a) ->
  ~ In doubleQuote pre -> ~ In doubleQuote mid ->
  ~ In newline body -> ~ In doubleQuote post ->
  logCollectionHook_Run Logs level msg = Logs ++ [string_of_list_ascii body].
Proof.
  intros Hlevel Hmsg Hfirst Hpre Hmid Hbody Hpost.
  assert (Hrep : strings_Replace (text msg) (text "LOG:") (text "") 1
                 = (pre ++ mid) ++ doubleQuote :: body ++ doubleQuote :: post).
  { rewrite Hmsg in Hfirst |- *.
    rewrite (strings_Replace_first pre (text "LOG:") (text "") _ 0) by (discriminate || exact Hfirst).
    unfold strings_Replace. rewrite strings_Replace_from_done.
    cbn [text list_ascii_of_string app drop]. rewrite <- app_assoc. reflexivity. }
  assert (Hrun : logCollectionHook_Run Logs level msg
                 = Logs ++ [string_of_list_ascii
                              match quotedLog_FindStringSubmatch
                                      (strings_Replace (text msg) (text "LOG:") (text "") 1) with
                              | Some group => group
                              | None => strings_Replace (text msg) (text "LOG:") (text "") 1
                              end])
    by (destruct level; congruence || reflexivity).
  rewrite Hrun, Hrep, quotedLog_FindStringSubmatch_quoted; [reflexivity|..]; try assumption.
  intros Hin. apply in_app_or in Hin as [Hin|Hin]; [apply Hpre|apply Hmid]; assumption.
Qed.

(** X12: a message without any double quote, logged at a level other than
    [NoLevel], is collected whole, less the first [LOG:] marker it holds (a
    second marker stays); when it holds none it is collected as it is. *)
Theorem logCollectionHook_Run_unquoted (Logs : list string) (level : Level) (msg : string) :
  level <> NoLevel ->
  ~ In doubleQuote (text msg) ->
  (forall pre post,
      text msg = pre ++ text "LOG:" ++ post ->
      (forall a b, text msg = a ++ text "LOG:" ++ b -> length pre <= length a) ->
      logCollectionHook_Run Logs level msg = Logs ++ [string_of_list_ascii (pre ++ post)])
  /\ ((forall a b, text msg <> a ++ text "LOG:" ++ b) ->
      logCollectionHook_Run Logs level msg = Logs ++ [msg]).
Proof.
  intros Hlevel Hmsg.
  assert (Hrun : logCollectionHook_Run Logs level msg
                 = Logs ++ [string_of_list_ascii
                              (strings_Replace (text msg) (text "LOG:") (text "") 1)]).
  { assert (Hnone : quotedLog_FindStringSubmatch
                      (strings_Replace (text msg) (text "LOG:") (text "") 1) = None)
      by (apply quotedLog_scan_unquoted, strings_Replace_from_removes; assumption).
    destruct level; try congruence; cbn [logCollectionHook_Run]; rewrite Hnone; reflexivity. }
  split.
  - intros pre post Hsplit Hfirst. rewrite Hrun. rewrite Hsplit in Hfirst |- *.
    rewrite (strings_Replace_first pre (text "LOG:") (text "") post 0)
      by (discriminate || exact Hfirst).
    unfold strings_Replace. rewrite strings_Replace_from_done. reflexivity.
  - intros Habsent. rewrite Hrun. do 2 f_equal.
    rewrite <- (string_of_list_ascii_of_string msg) at 2. f_equal.
    apply strings_Replace_from_absent; [discriminate|exact Habsent].
Qed.

(** X13: the collector only ever appends: over any sequence of events the
    messages collected before stay where they are, and one message is added
    for each event whose level is not [NoLevel], none for the others. *)
Theorem collectLogs_appends (Logs : list string) (events : list (Level * string)) :
  exists added,
    collectLogs Logs events = Logs ++ added
    /\ length added
       = length (List.filter (fun event => match fst event with NoLevel => false | _ => true end)
                             events).
Proof.
  unfold collectLogs. revert Logs.
  induction events as [|[level msg] rest IH]; intros Logs.
  - exists []. rewrite app_nil_r. split; reflexivity.
  - cbn [fold_left fst snd List.filter].
    destruct (IH (logCollectionHook_Run Logs level msg)) as (added & -> & Hlen).
    destruct level; cbn [logCollectionHook_Run];
      try (eexists; split; [rewrite <- app_assoc; reflexivity|cbn; rewrite Hlen; reflexivity]).
    exists added. split; [reflexivity|assumption].
Qed.

(** ** The backend's transactions *)

Section TransactionProperties.

Context `{FlowSDK} `{!Emulator} `{CadenceParser}.

Lemma AddAuthorizers_fields (authorizers : list Address) :
  forall tx : Transaction,
    let tx' := fold_left (fun tx authorizer => AddAuthorizer authorizer tx) authorizers tx in
    Script tx' = Script tx /\ Payer tx' = Payer tx
    /\ Authorizers tx' = Authorizers tx ++ authorizers
    /\ Arguments tx' = Arguments tx /\ Signatures tx' = Signatures tx.
Proof.
  induction authorizers as [|a rest IH]; intros tx; cbn [fold_left].
  - cbn. rewrite app_nil_r. repeat split.
  - destruct (IH (AddAuthorizer a tx)) as (-> & -> & -> & -> & ->). cbn.
    rewrite <- app_assoc. repeat split.
Qed.

(** X14: a transaction built by [newTransaction] carries the given code as
    its script, has the service account as payer and as proposer (with the
    service key's index), lists the authorizers given, in their order, and
    nothing else, and holds no argument and no signature yet. *)
Theorem newTransaction_fields (e : EmulatorBackend) (code : list ascii)
    (authorizers : list Address) :
  Script (newTransaction e code authorizers) = code
  /\ Payer (newTransaction e code authorizers)
     = Some (ServiceKey_Address (emulator_ServiceKey (ledger (blockchain e))))
  /\ ProposalKey_Address <$> TxProposalKey (newTransaction e code authorizers)
     = Some (ServiceKey_Address (emulator_ServiceKey (ledger (blockchain e))))
  /\ ProposalKey_KeyIndex <$> TxProposalKey (newTransaction e code authorizers)
     = Some (ServiceKey_Index (emulator_ServiceKey (ledger (blockchain e))))
  /\ Authorizers (newTransaction e code authorizers) = authorizers
  /\ Arguments (newTransaction e code authorizers) = []
  /\ Signatures (newTransaction e code authorizers) = [].
Proof.
  unfold newTransaction.
  match goal with |- context [fold_left ?f authorizers ?tx0] =>
    destruct (AddAuthorizers_fields authorizers tx0) as (-> & -> & -> & -> & ->);
    rewrite (AddAuthorizers_ProposalKey authorizers tx0) end.
  repeat split.
Qed.

(** X15: [signTransaction] takes the payload signatures from the last
    signer to the first: with one more account at the end of the list, that
    account signs before all the others, and if its signature fails the
    others are not asked. *)
Theorem signTransaction_last_signer_first (e : EmulatorBackend) (tx : Transaction)
    (signerAccounts : list Account) (lastSigner : Account) :
  signTransaction e tx (signerAccounts ++ [lastSigner])
  = match signPayloads e tx [lastSigner] with
    | inl err => inl err
    | inr tx => signTransaction e tx signerAccounts
    end.
Proof.
  unfold signTransaction. rewrite rev_app_distr. cbn [rev app signPayloads].
  match goal with |- context [tx_SignPayload ?a ?b ?c ?d] =>
    destruct (tx_SignPayload a b c d) as [err|tx1] end; reflexivity.
Qed.

(** X16: [DeployContract] either stops before it reaches the ledger,
    leaving the backend as it was, or hands the ledger one transaction and
    then calls it in this order, each call only if the one before succeeded:
    [AddTransaction], [ExecuteNextTransaction], [CommitBlock].  The block is
    committed, and the pending offset reset, only when the transaction
    executed without error; when its execution fails the offset stays raised
    by one and nothing is committed; and when the ledger reports no pending
    transaction at that point the call panics on the nil result. *)
Theorem DeployContract_ledger_calls (e e' : EmulatorBackend) name code account args out :
  DeployContract e name code account args = (out, e') ->
  (e' = e /\ out <> Normal None)
  \/ exists tx,
       submitted (blockchain e') = submitted (blockchain e) ++ [tx]
       /\ accountKeys e' = accountKeys e /\ configuration e' = configuration e
       /\ match emulator_AddTransaction (ledger (blockchain e)) tx with
          | (Some err, l1) =>
              out = Normal (Some err) /\ ledger (blockchain e') = l1
              /\ blockOffset e' = blockOffset e
          | (None, l1) =>
              match emulator_ExecuteNextTransaction l1 with
              | (inl PendingBlockTransactionsExhaustedError, l2) =>
                  out = Panic (PanicError (ErrorMessage "nil pointer dereference"))
                  /\ ledger (blockchain e') = l2
                  /\ blockOffset e' = uint64 (blockOffset e + 1)
              | (inl err, l2) | (inr (Some err), l2) =>
                  out = Normal (Some err) /\ ledger (blockchain e') = l2
                  /\ blockOffset e' = uint64 (blockOffset e + 1)
              | (inr None, l2) =>
                  out = Normal (fst (emulator_CommitBlock l2))
                  /\ ledger (blockchain e') = snd (emulator_CommitBlock l2)
                  /\ blockOffset e' = 0%Z
              end
          end.
Proof.
  unfold DeployContract.
  destruct (replaceImports e code) as [code'|v]; [|intros [= <- <-]; left; split; congruence].
  destruct (exportDeployArguments 0 args [] [] []) as [err|[[cadenceArgs txArgs] addArgs]];
    [intros [= <- <-]; left; split; congruence|].
  destruct (addArguments _ cadenceArgs) as [err|tx1] eqn:E1;
    [intros [= <- <-]; left; split; congruence|].
  destruct (signTransaction e tx1 [account]) as [err|tx2] eqn:E2;
    [intros [= <- <-]; left; split; congruence|].
  unfold blockchain_AddTransaction.
  destruct (emulator_AddTransaction (ledger (blockchain e)) tx2) as [[err|] l] eqn:E3.
  - intros [= <- <-]. right. exists tx2. rewrite E3. repeat split.
  - unfold ExecuteNextTransaction, blockchain_ExecuteNextTransaction. cbn.
    destruct (emulator_ExecuteNextTransaction l) as [[[|msg]|[resultError|]] l'] eqn:E4;
      cbn; try rewrite CommitBlock_spec;
      intros [= <- <-]; right; exists tx2; rewrite E3, E4; cbn; repeat split.
Qed.

End TransactionProperties.

(** ** Scripts and their arguments *)

Section ScriptProperties.

Context `{FlowTypes} `{!Emulator} `{CadenceParser}.



(** X18: a [RunScript] that returns gives back a value or an error, never
    both and never neither. *)
Theorem RunScript_value_xor_error (e e' : EmulatorBackend) (code : list ascii)
    (args : list Value) (result : ScriptResult) :
  RunScript e code args = (Normal result, e') ->
  (exists value, ScriptResult_Value result = Some value /\ ScriptResult_Error result = None)
  \/ (exists err, ScriptResult_Value result = None /\ ScriptResult_Error result = Some err).
Proof.
  unfold RunScript.
  destruct (encodeArguments args []) as [err|arguments];
    [intros [= <- <-]; right; eexists; split; reflexivity|].
  destruct (replaceImports e code) as [code'|v]; [|discriminate].
  destruct (blockchain_ExecuteScript _ code' arguments) as [[err|[[resultError|] resultValue]] b];
    try (intros [= <- <-]; right; eexists; split; reflexivity).
  destruct (runtime_ImportValue resultValue) as [err|value];
    intros [= <- <-]; [right|left]; eexists; split; reflexivity.
Qed.

(** X19: [RunScript] submits nothing: whatever it returns, the
    transactions handed to the ledger, the pending offset, the account keys
    and the configuration are as they were; and when an argument cannot be
    encoded the ledger is not called at all. *)
Theorem RunScript_submits_nothing (e : EmulatorBackend) (code : list ascii)
    (args : list Value) :
  submitted (blockchain (snd (RunScript e code args))) = submitted (blockchain e)
  /\ blockOffset (snd (RunScript e code args)) = blockOffset e
  /\ accountKeys (snd (RunScript e code args)) = accountKeys e
  /\ configuration (snd (RunScript e code args)) = configuration e
  /\ (forall err, encodeArguments args [] = inl err ->
        RunScript e code args
        = (Normal {| ScriptResult_Value := None; ScriptResult_Error := Some err |}, e)).
Proof.
  unfold RunScript.
  destruct (encodeArguments args []) as [err|arguments].
  { repeat split. intros ? [= <-]. reflexivity. }
  destruct (replaceImports e code) as [code'|v]; [|repeat split; discriminate].
  unfold blockchain_ExecuteScript.
  destruct (emulator_ExecuteScript _ code' arguments) as [[err|[[resultError|] resultValue]] l];
    try (repeat split; discriminate).
  destruct (runtime_ImportValue resultValue) as [err|value]; repeat split; discriminate.
Qed.

(** The first loop of [DeployContract], from any index on. *)
Lemma exportDeployArguments_spec (args : list Value) :
  forall (i : nat) cadenceArgs txArgsBuilder addArgsBuilder cadenceArgs' txArgs addArgs,
    exportDeployArguments i args cadenceArgs txArgsBuilder addArgsBuilder
    = inr (cadenceArgs', txArgs, addArgs) ->
    exists exported,
      Forall2 (fun arg cadenceArg => runtime_ExportValue arg = inr cadenceArg) args exported
      /\ cadenceArgs' = cadenceArgs ++ exported
      /\ txArgs
         = txArgsBuilder
           ++ concat (imap (fun k cadenceArg =>
                              (if (0 <? i + k)%nat then text ", " else [])
                              ++ text "arg" ++ fmt_d (i + k) ++ text ": "
                              ++ text (CadenceValue_TypeID cadenceArg))
                           exported)
      /\ addArgs
         = addArgsBuilder
           ++ concat (imap (fun k _ => text ", arg" ++ fmt_d (i + k)) exported).
Proof.
  induction args as [|arg rest IH]; intros i cadenceArgs txb addb cadenceArgs' txArgs addArgs;
    cbn [exportDeployArguments].
  - intros [= <- <- <-]. exists []. cbn. rewrite !app_nil_r. repeat split. constructor.
  - destruct (runtime_ExportValue arg) as [err|cadenceArg] eqn:Ev; [discriminate|].
    intros Hrest. apply IH in Hrest as (exported & Hall & -> & -> & ->).
    exists (cadenceArg :: exported). split; [constructor; assumption|].
    assert (Hshift : forall (h : nat -> CadenceValue -> list ascii) h',
               (forall k v, h' k v = h (S k) v) ->
               concat (imap h' exported) = concat (imap (h ∘ S) exported)).
    { intros h h' Hh. f_equal. apply imap_ext. intros k v _. apply Hh. }
    cbn [imap concat]. rewrite !Nat.add_0_r.
    split; [rewrite <- app_assoc; reflexivity|]. split.
    + erewrite <- Hshift by (intros k v; cbn beta; rewrite <- Nat.add_succ_comm; reflexivity).
      destruct (0 <? i)%nat; rewrite <- !app_assoc; reflexivity.
    + erewrite <- Hshift by (intros k v; cbn beta; rewrite <- Nat.add_succ_comm; reflexivity).
      rewrite <- !app_assoc; reflexivity.
Qed.

(** X20: when every value can be exported, [DeployContract] declares one
    transaction parameter per value, named [arg0], [arg1], ... in the order
    of the values and typed with the type of the exported value, the
    parameters separated by commas; and it passes the same names, in the
    same order, after the code in the call of [contracts.add]. *)
Theorem exportDeployArguments_names (args : list Value) cadenceArgs txArgs addArgs :
  exportDeployArguments 0 args [] [] [] = inr (cadenceArgs, txArgs, addArgs) ->
  Forall2 (fun arg cadenceArg => runtime_ExportValue arg = inr cadenceArg) args cadenceArgs
  /\ txArgs
     = drop 2 (concat (imap (fun i cadenceArg =>
                               text ", arg" ++ fmt_d i ++ text ": "
                               ++ text (CadenceValue_TypeID cadenceArg))
                            cadenceArgs))
  /\ addArgs = concat (imap (fun i _ => text ", arg" ++ fmt_d i) cadenceArgs).
Proof.
  intros Hrun. apply exportDeployArguments_spec in Hrun as (exported & Hall & -> & -> & ->).
  cbn [app Nat.add]. split; [assumption|]. split; [|reflexivity].
  destruct exported as [|v rest]; [reflexivity|].
  cbn [imap concat Nat.ltb Nat.leb app text list_ascii_of_string drop].
  reflexivity.
Qed.

End ScriptProperties.

(** ** Accounts and their keys *)

Section CreateAccountProperties.

Context `{FlowSDK} `{!Emulator} `{!AccountCreation}.

(** X21: an account returned by [CreateAccount] can sign: in the backend
    left by the call, [signTransaction]'s loop signs the payload for that
    account with the signer generated for it.  The keys of the accounts at
    other addresses are as before, and the call neither submits a
    transaction nor moves the pending offset.  A failed call stores no
    key. *)
Theorem CreateAccount_registers_signer (e e' : EmulatorBackend)
    (generatedKey : AccountKey) (generatedSigner : Signer) (ret : GoError + Account) :
  CreateAccount e (generatedKey, generatedSigner) = (ret, e') ->
  submitted (blockchain e') = submitted (blockchain e)
  /\ blockOffset e' = blockOffset e
  /\ configuration e' = configuration e
  /\ match ret with
     | inl err => accountKeys e' = accountKeys e
     | inr account =>
         (forall tx, signPayloads e' tx [account]
                     = tx_SignPayload tx (Account_Address account) 0 (Some generatedSigner))
         /\ (forall other tx,
               Account_Address other <> Account_Address account ->
               signPayloads e' tx [other] = signPayloads e tx [other])
     end.
Proof.
  unfold CreateAccount.
  destruct (emulator_CreateAccount (ledger (blockchain e)) [generatedKey]) as [[err|address] l];
    intros [= <- <-]; cbn [blockchain submitted blockOffset configuration accountKeys
                             set_blockchain]; repeat split.
  - intros tx. cbn [signPayloads Account_Address Account_PublicKey accountKeys].
    rewrite lookup_insert_eq. cbn [from_option id]. rewrite lookup_singleton_eq.
    cbn [from_option id signer].
    destruct (tx_SignPayload tx address 0 (Some generatedSigner)); reflexivity.
  - intros other tx Hother. cbn [signPayloads Account_Address accountKeys] in *.
    rewrite lookup_insert_ne by congruence. reflexivity.
Qed.

End CreateAccountProperties.

(** ** Sequence numbers within one block *)

Lemma uint64_add_l (a b : Z) : uint64 (uint64 a + b) = uint64 (a + b).
Proof. unfold uint64. apply Zplus_mod_idemp_l. Qed.

Lemma uint64_add_r (a b : Z) : uint64 (a + uint64 b) = uint64 (a + b).
Proof. unfold uint64. apply Zplus_mod_idemp_r. Qed.

Section SubmissionProperties.

Context `{FlowSDK} `{!Emulator} `{CadenceParser}.

(** What one successful [AddTransaction] leaves behind. *)
Lemma AddTransaction_accepted (e e' : EmulatorBackend) code authorizers signers args :
  sdkKeepsProposalKey ->
  AddTransaction e code authorizers signers args = (Normal None, e') ->
  exists tx,
    SequenceNumber tx = Some (nextSequenceNumber e)
    /\ submitted (blockchain e') = submitted (blockchain e) ++ [tx]
    /\ ledger (blockchain e') = snd (emulator_AddTransaction (ledger (blockchain e)) tx)
    /\ blockOffset e' = uint64 (blockOffset e + 1).
Proof.
  intros Hsdk. unfold AddTransaction.
  destruct (replaceImports e code) as [code'|v]; [|discriminate].
  destruct (addExportedArguments _ args) as [err|tx1] eqn:E1; [discriminate|].
  destruct (signTransaction e tx1 signers) as [err|tx2] eqn:E2; [discriminate|].
  assert (Hseq : SequenceNumber tx2 = Some (nextSequenceNumber e)).
  { unfold SequenceNumber.
    rewrite (signTransaction_ProposalKey _ _ Hsdk _ _ E2),
      (addExportedArguments_ProposalKey _ Hsdk _ _ E1).
    apply newTransaction_SequenceNumber. }
  unfold blockchain_AddTransaction.
  destruct (emulator_AddTransaction (ledger (blockchain e)) tx2) as [[err|] l] eqn:E3;
    [discriminate|].
  intros [= <-]. exists tx2. rewrite E3. repeat split. assumption.
Qed.

(** X22: transactions added one after another to the same block propose
    consecutive sequence numbers.  Provided the ledger leaves the service
    key's sequence number alone while transactions are being added, [n]
    successful calls of [AddTransaction] hand the ledger [n] transactions
    whose sequence numbers are those of the first one onwards, counting up by
    one (in [uint64]), and raise the pending offset by [n]. *)
Theorem AddTransaction_consecutive_sequence_numbers (e e' : EmulatorBackend) (n : nat) :
  sdkKeepsProposalKey ->
  addingKeepsServiceKey ->
  uint64 (blockOffset e) = blockOffset e ->
  submits e n e' ->
  exists txs,
    submitted (blockchain e') = submitted (blockchain e) ++ txs
    /\ map SequenceNumber txs
       = map (fun k => Some (uint64 (nextSequenceNumber e + Z.of_nat k))) (seq 0 n)
    /\ blockOffset e' = uint64 (blockOffset e + Z.of_nat n).
Proof.
  intros Hsdk Hledger Hrange Hsub.
  enough (Hgen : exists txs,
             submitted (blockchain e') = submitted (blockchain e) ++ txs
             /\ map SequenceNumber txs
                = map (fun k => Some (uint64 (nextSequenceNumber e + Z.of_nat k))) (seq 0 n)
             /\ blockOffset e' = uint64 (blockOffset e + Z.of_nat n)
             /\ ServiceKey_SequenceNumber (emulator_ServiceKey (ledger (blockchain e')))
                = ServiceKey_SequenceNumber (emulator_ServiceKey (ledger (blockchain e)))).
  { destruct Hgen as (txs & ? & ? & ? & _). exists txs. auto. }
  induction Hsub as [e|e e1 e2 n code authorizers signers args Hsub IH Hadd].
  - exists []. rewrite app_nil_r, Z.add_0_r. cbn [seq map]. auto.
  - destruct (IH Hrange) as (txs & Hsubmitted & Hseqs & Hoffset & Hkey).
    apply (AddTransaction_accepted _ _ _ _ _ _ Hsdk) in Hadd
      as (tx & Hseq & Hsubmitted' & Hledger' & Hoffset').
    exists (txs ++ [tx]). split; [rewrite Hsubmitted', Hsubmitted, app_assoc; reflexivity|].
    split; [|split].
    + rewrite seq_S, !map_app, Hseqs. cbn [map Nat.add]. f_equal. f_equal.
      rewrite Hseq. f_equal. unfold nextSequenceNumber, blockchain_ServiceKey.
      rewrite Hkey, Hoffset, uint64_add_r, uint64_add_l, Z.add_assoc. reflexivity.
    + rewrite Hoffset', Hoffset, uint64_add_l. f_equal. lia.
    + rewrite Hledger', Hledger. exact Hkey.
Qed.

End SubmissionProperties.

(** ** The extended properties on concrete inputs *)

(** The theorem of X2 on the script in which [testB] takes a parameter. *)
Lemma malformed_test_function_aborts_witness :
  exists err,
    @RunTests suiteMalformed counterRand unseededRunner "suite" = (Normal ([], Some err), [])
    /\ @RunTest suiteMalformed unseededRunner "suite" "testA" = (Normal (None, Some err), []).
Proof.
  eapply (@malformed_test_function_aborts suiteMalformed counterRand).
  - reflexivity.
  - cbn. intros Hall. apply Forall_cons_1 in Hall as [_ Hall].
    apply Forall_cons_1 in Hall as [Hb _]. destruct (Hb eq_refl). discriminate.
Defined.

(** The theorem of X3 on the suite whose [setup] fails. *)
Lemma RunTests_setup_failure_aborts_witness :
  exists e,
    @RunTests suiteSetupFails counterRand seededRunner "suite"
    = (Normal ([], Some e), [(setupFunctionName, Normal (Some e))]).
Proof.
  eapply (@RunTests_setup_failure_aborts suiteSetupFails counterRand).
  - exact counterRand_drawsBelowBound.
  - reflexivity.
  - vm_compute. reflexivity.
  - vm_compute. reflexivity.
Defined.

(** The theorem of X4 on the suite with a failing case and a failing
    [tearDown], shuffled with seed 5. *)
Lemma RunTests_invokes_only_hooks_and_cases_witness :
  exists program inter,
    @parseCheckAndInterpret suiteTearDownFails "suite" = Normal (inr (program, inter))
    /\ Forall (fun inv =>
                 (isLifecycleHook (fst inv) = true /\ Globals_Contains inter (fst inv) = true)
                 \/ (String.prefix testFunctionPrefix (fst inv) = true
                     /\ In (fst inv) (map Identifier (FunctionDeclarations program))))
              (snd (@RunTests suiteTearDownFails counterRand seededRunner "suite")).
Proof.
  eexists _, _. split; [reflexivity|].
  eapply (@RunTests_invokes_only_hooks_and_cases suiteTearDownFails counterRand).
  - exact counterRand_drawsBelowBound.
  - reflexivity.
Defined.

(** The theorem of X5 on the same run. *)
Lemma RunTests_results_record_invocations_witness :
  exists results err,
    fst (@RunTests suiteTearDownFails counterRand seededRunner "suite") = Normal (results, err)
    /\ map resultInvocation results
       = caseInvocations (snd (@RunTests suiteTearDownFails counterRand seededRunner "suite"))
    /\ map TestName results ≡ₚ ["testA"; "testB"; "testC"].
Proof.
  edestruct (@RunTests_results_record_invocations suiteTearDownFails counterRand
               seededRunner "suite") as (results & err & Hret & Hinv & Hnames).
  - exact counterRand_drawsBelowBound.
  - reflexivity.
  - vm_compute. reflexivity.
  - vm_compute. reflexivity.
  - vm_compute. reflexivity.
  - exists results, err. split; [exact Hret|]. split; [exact Hinv | exact Hnames].
Defined.

(** The theorem of X6 on the same run: the error returned is that of
    [tearDown]. *)
Lemma RunTests_error_is_tearDown_error_witness :
  exists results err,
    fst (@RunTests suiteTearDownFails counterRand seededRunner "suite") = Normal (results, err)
    /\ last (snd (@RunTests suiteTearDownFails counterRand seededRunner "suite"))
       = Some (tearDownFunctionName, Normal err).
Proof.
  edestruct (@RunTests_error_is_tearDown_error suiteTearDownFails counterRand
               seededRunner "suite") as (results & err & Hret & Hlast).
  - exact counterRand_drawsBelowBound.
  - reflexivity.
  - vm_compute. reflexivity.
  - vm_compute. reflexivity.
  - vm_compute. reflexivity.
  - exists results, err. split; [exact Hret | exact Hlast].
Defined.

(** The theorem of X7 on the failing case of the suite, which has no
    [setup] and no [afterEach]. *)
Lemma RunTest_lifecycle_witness :
  exists err,
    @RunTest suiteTearDownFails unseededRunner "suite" "testB"
    = (Normal (Some {| TestName := "testB";
                       Error := Some (ErrorMessage "assertion failed") |}, err),
       [("beforeEach", Normal None);
        ("testB", Normal (Some (ErrorMessage "assertion failed")));
        ("tearDown", Normal err)]).
Proof.
  edestruct (@RunTest_lifecycle suiteTearDownFails unseededRunner "suite" "testB")
    as (testResult & err & Hrun & _).
  - reflexivity.
  - reflexivity.
  - vm_compute. reflexivity.
  - vm_compute. reflexivity.
  - vm_compute. reflexivity.
  - exists err. rewrite Hrun. vm_compute in Hrun |- *.
    injection Hrun as <- <-. reflexivity.
Defined.

(** The theorem of X8 on the suite whose [afterEach] fails. *)
Lemma RunTest_hook_failure_witness :
  exists hook e,
    fst (@RunTest suiteAfterEachFails unseededRunner "suite" "testA") = Normal (None, Some e)
    /\ last (snd (@RunTest suiteAfterEachFails unseededRunner "suite" "testA"))
       = Some (hook, Normal (Some e))
    /\ countInvocations tearDownFunctionName
         (snd (@RunTest suiteAfterEachFails unseededRunner "suite" "testA")) = O.
Proof.
  edestruct (@RunTest_hook_failure suiteAfterEachFails unseededRunner "suite" "testA")
    as (hook & e & _ & Hret & Hlast & Hcount & _).
  - reflexivity.
  - reflexivity.
  - vm_compute. reflexivity.
  - vm_compute. reflexivity.
  - exists hook, e. split; [exact Hret|]. split; [exact Hlast | exact Hcount].
Defined.

(** The theorem of X9 on two errors of different kinds that carry the same
    message. *)
Lemma PrettyPrintResult_injective_witness :
  @PrettyPrintResult plainPrinting "testA" (Some (ErrorMessage "no pending transactions"))
  = @PrettyPrintResult plainPrinting "testA" (Some PendingBlockTransactionsExhaustedError)
  /\ @GoError_Error plainPrinting <$> Some (ErrorMessage "no pending transactions")
     = @GoError_Error plainPrinting <$> Some PendingBlockTransactionsExhaustedError.
Proof.
  split; [reflexivity|].
  apply (@PrettyPrintResult_injective plainPrinting "testA"). reflexivity.
Defined.

(** The theorem of X11 on a quoted log line. *)
Lemma logCollectionHook_Run_quoted_witness :
  logCollectionHook_Run ["earlier"] DebugLevel
    (string_of_list_ascii
       (text "Level LOG: " ++ dquote ++ text "setup successful" ++ dquote))
  = ["earlier"; "setup successful"].
Proof.
  apply (logCollectionHook_Run_quoted ["earlier"] DebugLevel _
           (text "Level ") (text " ") (text "setup successful") []).
  - discriminate.
  - reflexivity.
  - intros a b Hab. vm_compute in Hab.
    do 6 (destruct a as [|? a]; [discriminate|injection Hab as _ Hab]).
    cbn [length text list_ascii_of_string]. lia.
  - vm_compute. intuition discriminate.
  - vm_compute. intuition discriminate.
  - vm_compute. intuition discriminate.
  - intros [].
Defined.

(** The theorem of X12 on a log line without quotes. *)
Lemma logCollectionHook_Run_unquoted_witness :
  logCollectionHook_Run [] InfoLevel "LOG: flow.AccountCreated(address: 0x01cf0e2f2f715450)"
  = [" flow.AccountCreated(address: 0x01cf0e2f2f715450)"].
Proof.
  destruct (logCollectionHook_Run_unquoted [] InfoLevel
              "LOG: flow.AccountCreated(address: 0x01cf0e2f2f715450)") as (Hfirst & _).
  - discriminate.
  - vm_compute. intuition discriminate.
  - apply (Hfirst [] (text " flow.AccountCreated(address: 0x01cf0e2f2f715450)")).
    + reflexivity.
    + intros a b _. cbn [length]. lia.
Defined.

(** The theorem of X16 on a deployment by a created account: the
    transaction is added, executed and committed. *)
Lemma DeployContract_ledger_calls_witness :
  exists tx,
    submitted (blockchain (snd (@DeployContract plainTypes plainSDK countingEmulator fooParser
                                  backendWithAccount "Foo" (text "pub contract Foo {}")
                                  createdAccount [3%nat])))
    = [tx]
    /\ fst (@DeployContract plainTypes plainSDK countingEmulator fooParser
              backendWithAccount "Foo" (text "pub contract Foo {}") createdAccount [3%nat])
       = Normal None
    /\ blockOffset (snd (@DeployContract plainTypes plainSDK countingEmulator fooParser
                           backendWithAccount "Foo" (text "pub contract Foo {}")
                           createdAccount [3%nat]))
       = 0%Z.
Proof.
  destruct (@DeployContract_ledger_calls plainTypes plainSDK countingEmulator fooParser
              backendWithAccount
              (snd (@DeployContract plainTypes plainSDK countingEmulator fooParser
                      backendWithAccount "Foo" (text "pub contract Foo {}")
                      createdAccount [3%nat]))
              "Foo" (text "pub contract Foo {}") createdAccount [3%nat]
              (fst (@DeployContract plainTypes plainSDK countingEmulator fooParser
                      backendWithAccount "Foo" (text "pub contract Foo {}")
                      createdAccount [3%nat])))
    as [[Hsame _]|(tx & Hsub & _ & _ & Hcalls)].
  - apply surjective_pairing.
  - vm_compute in Hsame. discriminate.
  - exists tx. split; [exact Hsub|]. split; vm_compute; reflexivity.
Defined.

(** The theorem of X18 on a script that returns a value. *)
Lemma RunScript_value_xor_error_witness :
  exists result,
    fst (@RunScript plainTypes countingEmulator fooParser freshBackend
           (text "pub fun main(): Int { return 1 }") [2%nat])
    = Normal result
    /\ ((exists value, ScriptResult_Value result = Some value
                       /\ ScriptResult_Error result = None)
        \/ (exists err, ScriptResult_Value result = None
                        /\ ScriptResult_Error result = Some err)).
Proof.
  eexists. split; [vm_compute; reflexivity|].
  eapply (@RunScript_value_xor_error plainTypes countingEmulator fooParser
            freshBackend freshBackend (text "pub fun main(): Int { return 1 }") [2%nat]).
  vm_compute. reflexivity.
Defined.

(** The theorem of X20 on two arguments. *)
Lemma exportDeployArguments_names_witness :
  Forall2 (fun arg cadenceArg => @runtime_ExportValue plainTypes arg = inr cadenceArg)
          [3%nat; 4%nat] [3%nat; 4%nat]
  /\ text "arg0: Int, arg1: Int"
     = drop 2 (concat (imap (fun i cadenceArg =>
                               text ", arg" ++ fmt_d i ++ text ": "
                               ++ text (@CadenceValue_TypeID plainTypes cadenceArg))
                            [3%nat; 4%nat]))
  /\ text ", arg0, arg1"
     = concat (imap (fun i (_ : nat) => text ", arg" ++ fmt_d i) [3%nat; 4%nat]).
Proof.
  apply (@exportDeployArguments_names plainTypes [3%nat; 4%nat]). vm_compute. reflexivity.
Defined.

(** The theorem of X21 on the first account created on a fresh backend. *)
Lemma CreateAccount_registers_signer_witness :
  @signPayloads plainTypes plainSDK countingEmulator backendWithAccount
    sdk_NewTransaction [createdAccount]
  = @tx_SignPayload plainTypes plainSDK sdk_NewTransaction
      ("01cf0e2f2f715450" : @Address plainTypes) 0 (Some tt)
  /\ blockOffset backendWithAccount = 0%Z.
Proof.
  destruct (@CreateAccount_registers_signer plainTypes plainSDK countingEmulator plainAccounts
              freshBackend backendWithAccount tt tt (inr createdAccount))
    as (_ & Hoffset & _ & Hsign & _).
  - vm_compute. reflexivity.
  - split; [exact (Hsign sdk_NewTransaction) | exact Hoffset].
Defined.

(** The theorem of X22 on two transactions added to the busy backend:
    41 + 3 = 44, then 45. *)
Lemma AddTransaction_consecutive_sequence_numbers_witness :
  exists txs,
    submitted (blockchain afterTwoSubmissions) = txs
    /\ map SequenceNumber txs = [Some 44%Z; Some 45%Z]
    /\ blockOffset afterTwoSubmissions = 5%Z.
Proof.
  destruct (@AddTransaction_consecutive_sequence_numbers plainTypes plainSDK countingEmulator
              fooParser busyBackend afterTwoSubmissions 2 plainSDK_keeps_ProposalKey)
    as (txs & Hsub & Hseqs & Hoffset).
  - intros l tx. reflexivity.
  - reflexivity.
  - apply (submits_more busyBackend afterOneSubmission afterTwoSubmissions 1
             (text "transaction {}") [] [] []);
      [apply (submits_more busyBackend busyBackend afterOneSubmission 0
                (text "transaction {}") [] [] []); [apply submits_none|]|];
      vm_compute; reflexivity.
  - exists txs. split; [exact Hsub|]. split; [exact Hseqs | exact Hoffset].
Defined.

(** ** [RunTest] and [RunTests] side by side *)

Section SingleCase.

Context `{CadenceRuntime} `{MathRand}.

Lemma orderTestCases_single (r : TestRunner) (funcDecl : FunctionDeclaration) :
  orderTestCases r [funcDecl] = Normal [funcDecl].
Proof. unfold orderTestCases. destruct (0 <? randomSeed r)%Z; reflexivity. Qed.

(** X23: on a script that declares exactly one test case, [RunTests] and
    [RunTest] of that case are the same run: they make the same invocations
    in the same order, return the same error, and the Results of [RunTests]
    hold the Result of [RunTest] and nothing else (no Result where [RunTest]
    returns none); where one ends by a panic so does the other, with the
    same value. *)
Theorem RunTests_single_case_agrees_with_RunTest (r : TestRunner) (script : string)
    program (inter : Interpreter) (funcDecl : FunctionDeclaration) :
  parseCheckAndInterpret script = Normal (inr (program, inter)) ->
  discoverTestCases program = [funcDecl] ->
  snd (RunTests r script) = snd (RunTest r script (Identifier funcDecl))
  /\ fst (RunTests r script)
     = match fst (RunTest r script (Identifier funcDecl)) with
       | Normal (Some result, err) => Normal ([result], err)
       | Normal (None, err) => Normal ([], err)
       | Panic v => Panic v
       end.
Proof.
  intros Hparse Hcases. unfold RunTests, RunTest. rewrite Hparse.
  unfold RunTests_steps, RunTest_steps, call. rewrite Hcases, orderTestCases_single.
  cbn [forEachTestCase].
  destruct (runTestSetup inter) as [[[e0|]|v0] i0]; try (split; reflexivity).
  destruct (runBeforeEach i0) as [[[e1|]|v1] i1]; try (split; reflexivity).
  rewrite invokeTestFunction_eq.
  destruct (inter_Invoke i1 (Identifier funcDecl)) as [[testErr|v2] i2];
    try (split; reflexivity).
  destruct (runAfterEach i2) as [[[e3|]|v3] i3]; try (split; reflexivity).
  cbn [app]. destruct (runTestTearDown i3) as [[err|v4] i4]; split; reflexivity.
Qed.

End SingleCase.

(** ** The two ways of adding arguments *)

Section ArgumentLoops.

Context `{FlowSDK}.

(** X24: the single loop of [AddTransaction], which exports each value and
    adds it at once, succeeds exactly when the two loops of [DeployContract]
    do, which export every value first and add them afterwards; and both then
    give the same transaction. *)
Theorem addExportedArguments_export_then_add (args : list Value) (tx tx' : Transaction) :
  addExportedArguments tx args = inr tx'
  <-> exists cadenceArgs,
        Forall2 (fun arg cadenceArg => runtime_ExportValue arg = inr cadenceArg)
                args cadenceArgs
        /\ addArguments tx cadenceArgs = inr tx'.
Proof.
  revert tx. induction args as [|arg rest IH]; intros tx; cbn [addExportedArguments].
  - split.
    + intros Heq. exists []. split; [constructor|exact Heq].
    + intros (cadenceArgs & Hall & Hadd). apply Forall2_nil_inv_l in Hall as ->. exact Hadd.
  - split.
    + destruct (runtime_ExportValue arg) as [err|v] eqn:Ev; [discriminate|].
      destruct (tx_AddArgument tx v) as [err|tx1] eqn:Ea; [discriminate|].
      intros Hrest. apply IH in Hrest as (cadenceArgs & Hall & Hadd).
      exists (v :: cadenceArgs). split; [constructor; assumption|].
      cbn [addArguments]. rewrite Ea. exact Hadd.
    + intros (cadenceArgs & Hall & Hadd).
      apply Forall2_cons_inv_l in Hall as (v & cadenceArgs' & Ev & Hall & ->).
      rewrite Ev. cbn [addArguments] in Hadd.
      destruct (tx_AddArgument tx v) as [err|tx1]; [discriminate|].
      apply IH. exists cadenceArgs'. split; assumption.
Qed.

End ArgumentLoops.

(** The theorem of X23 on a suite with one case and every hook. *)
Lemma RunTests_single_case_agrees_with_RunTest_witness :
  snd (@RunTests suiteSingleCase counterRand seededRunner "suite")
  = snd (@RunTest suiteSingleCase seededRunner "suite" "testA")
  /\ fst (@RunTests suiteSingleCase counterRand seededRunner "suite")
     = Normal ([{| TestName := "testA"; Error := Some (ErrorMessage "assertion failed") |}],
               None).
Proof.
  edestruct (@RunTests_single_case_agrees_with_RunTest suiteSingleCase counterRand
               seededRunner "suite") as [Htrace Hresults].
  - reflexivity.
  - reflexivity.
  - split; [exact Htrace|]. rewrite Hresults. vm_compute. reflexivity.
Defined.

(** * Faults returned by the interpreter *)

Section ReturnedFaults.

Context `{CadenceRuntime} `{MathRand}.









End ReturnedFaults.



